(** * Package [slices] of syumai/go-generics: a model and its properties

    The package is a set of free functions over Go slices.  A Go slice is
    a view [(pointer, length, capacity)] into a backing array that other
    slices may share, and several functions of the package ([Delete],
    [Compact], [CompactFunc], the fast path of [Insert]) write through
    that view.  The model therefore keeps the backing arrays in an
    explicit store and threads it through every operation; a run-time
    panic ends the computation.

    Modelling conventions.
    - Go's [int] is modelled by [Z], and lengths and capacities by
      [nat].  The package does no arithmetic on element values; every
      [int] it computes is a loop counter below a length, or the sum of
      an index and a length or of two lengths.  The store is unbounded:
      it may hold arrays of any length, and an allocation of the size
      of slices that it holds never fails for lack of memory.  Lengths
      are not bounded either, and these sums are taken in [Z].
    - [Grow] allocates a number of elements that its caller chooses.
      The run time refuses an allocation beyond a size that depends on
      the platform and on the room an element takes; that size is the
      parameter [max_len], counted in elements, and [Grow] runs [make]
      and [append] with the check of it ([make_checked],
      [append_checked]).
    - The element type [T] is a parameter, with its zero value [zero],
      its [==] as [eqb] and its [<] as [ltb].  Nothing is assumed about
      [eqb] and [ltb], so that element types whose [==] is not reflexive
      (floating point numbers) are covered.
    - The built-ins [len], [cap], slice expressions, indexing, [copy],
      [make] and [append] follow the Go language specification.  The
      capacity that [append] chooses when it reallocates is left to the
      implementation by the language; it is the parameter [growcap]. *)

From stdpp Require Import base numbers list.

Local Open Scope Z_scope.

(** ** Slices and the store of backing arrays *)

(** A slice value: the backing array it points into, the offset of its
    first element in that array, its length and its capacity. *)
Record slice := Slice {
  base : nat;
  off : nat;
  slen : nat;
  scap : nat
}.

(** The built-ins [len(s)] and [cap(s)] return an [int]. *)
Definition len (s : slice) : Z := Z.of_nat (slen s).
Definition cap (s : slice) : Z := Z.of_nat (scap s).

(** The two run-time panics the package can raise: an index or a slice
    bound out of range, and an allocation whose length is out of range
    ([makeslice: len out of range], [growslice: len out of range]). *)
Inductive panic := BoundsError | LenOutOfRange.

(** What a loop body asks for: go on with the next iteration, or leave
    the enclosing function with a value. *)
Inductive flow (St R : Type) :=
| Next (st : St)
| Return (r : R).
Arguments Next {St R} st.
Arguments Return {St R} r.

Section Model.

Context {T : Type}.
Variable zero : T.
Variable growcap : nat -> nat -> nat.
Variable max_len : N.

(** The store: the backing arrays allocated so far, by address. *)
Abbreviation store := (list (list T)).

Inductive result (A : Type) :=
| Ok (a : A) (h : store)
| Panic (p : panic).
Arguments Ok {A} a h.
Arguments Panic {A} p.

Definition M (A : Type) := store -> result A.

Definition ret {A} (a : A) : M A := fun h => Ok a h.

Definition bind {A B} (m : M A) (k : A -> M B) : M B :=
  fun h => match m h with
           | Ok a h' => k a h'
           | Panic p => Panic p
           end.

Definition throw {A} (p : panic) : M A := fun _ => Panic p.

Notation "x <- m ;; k" := (bind m (fun x => k))
  (at level 100, m at next level, right associativity).

(** The backing array at an address. *)
Definition mem (h : store) (a : nat) : list T := default [] (h !! a).

(** Overwrite the cells of an array from position [o] on with [l]. *)
Definition write (o : nat) (l : list T) (a : list T) : list T :=
  take o a ++ l ++ drop (o + length l)%nat a.

Definition store_write (h : store) (a o : nat) (l : list T) : store :=
  alter (write o l) a h.

(** The elements a slice shows. *)
Definition contents (h : store) (s : slice) : list T :=
  take (slen s) (drop (off s) (mem h (base s))).

(** A slice is valid in a store when its capacity lies inside its
    backing array and its length inside its capacity. *)
Definition valid (h : store) (s : slice) : Prop :=
  (off s + scap s <= length (mem h (base s)))%nat /\ (slen s <= scap s)%nat.

(** ** Built-ins *)

(** [s[lo:hi]]: panics unless [0 <= lo <= hi <= cap(s)]. *)
Definition slice_expr (s : slice) (lo hi : Z) : M slice :=
  if (0 <=? lo) && (lo <=? hi) && (hi <=? cap s) then
    ret (Slice (base s) (off s + Z.to_nat lo) (Z.to_nat (hi - lo))
               (scap s - Z.to_nat lo))
  else throw BoundsError.

(** [s[lo:]] is [s[lo:len(s)]] and [s[:hi]] is [s[0:hi]]. *)
Definition slice_from (s : slice) (lo : Z) : M slice := slice_expr s lo (len s).
Definition slice_to (s : slice) (hi : Z) : M slice := slice_expr s 0 hi.

(** [s[i]] as a value: panics unless [0 <= i < len(s)]. *)
Definition index (s : slice) (i : Z) : M T := fun h =>
  if (0 <=? i) && (i <? len s) then
    match contents h s !! Z.to_nat i with
    | Some x => Ok x h
    | None => Panic BoundsError
    end
  else Panic BoundsError.

(** [s[i] = v]. *)
Definition assign (s : slice) (i : Z) (v : T) : M unit := fun h =>
  if (0 <=? i) && (i <? len s) then
    Ok tt (store_write h (base s) (off s + Z.to_nat i) [v])
  else Panic BoundsError.

(** [copy(dst, src)]: copies [min(len(dst), len(src))] elements, as if
    the source were read before the destination is written (the two may
    overlap), and returns their number. *)
Definition copy (dst src : slice) : M Z := fun h =>
  let n := Nat.min (slen dst) (slen src) in
  Ok (Z.of_nat n) (store_write h (base dst) (off dst) (take n (contents h src))).

(** [make([]T, n, c)]: a fresh array of [c] zero values.  This is
    [make] as [Clone] and [Insert] call it, with sizes that are the
    lengths and capacities of slices in the store; the limit of the
    run time on the size is checked in [make_checked] below. *)
Definition make (n c : Z) : M slice := fun h =>
  if (0 <=? n) && (n <=? c) then
    Ok (Slice (length h) 0 (Z.to_nat n) (Z.to_nat c))
       (h ++ [replicate (Z.to_nat c) zero])
  else Panic LenOutOfRange.

(** [append(s, vs...)]: writes after the last element of [s] when the
    capacity allows it, and moves to a fresh array otherwise. *)
Definition append (s vs : slice) : M slice := fun h =>
  let data := contents h vs in
  let n := (slen s + slen vs)%nat in
  if (n <=? scap s)%nat then
    Ok (Slice (base s) (off s) n (scap s))
       (store_write h (base s) (off s + slen s) data)
  else
    let c := growcap (scap s) n in
    Ok (Slice (length h) 0 n c)
       (h ++ [contents h s ++ data ++ replicate (c - n) zero]).

(** [make([]T, n, c)] with the run time's check of the size: it panics
    when [c] is beyond [max_len], the largest number of elements of the
    type that the run time allocates. *)
Definition make_checked (n c : Z) : M slice :=
  if c <=? Z.of_N max_len then make n c else throw LenOutOfRange.

(** [append(s, vs...)] with the run time's check of the size: when it
    has to move to a fresh array, it panics if the capacity chosen for
    that array is beyond [max_len]. *)
Definition append_checked (s vs : slice) : M slice :=
  let n := (slen s + slen vs)%nat in
  if (n <=? scap s)%nat || (Z.of_nat (growcap (scap s) n) <=? Z.of_N max_len)
  then append s vs
  else throw LenOutOfRange.

(** A slice literal [[]T{x1, ..., xn}], and the slice Go builds for the
    variadic arguments of a call [f(x1, ..., xn)]: a fresh array. *)
Definition literal (l : list T) : M slice := fun h =>
  Ok (Slice (length h) 0 (length l) (length l)) (h ++ [l]).

(** [for i := lo; i < hi; i++ { body }] where [hi] does not change in
    the loop: [k] counts the iterations that are left. *)
Fixpoint for_upto {St R} (k : nat) (i : Z)
    (body : Z -> St -> M (flow St R)) (st : St) : M (flow St R) :=
  match k with
  | O => ret (Next st)
  | S k' =>
      f <- body i st ;;
      match f with
      | Next st' => for_upto k' (i + 1) body st'
      | Return r => ret (Return r)
      end
  end.

Definition for_range {St R} (lo hi : Z)
    (body : Z -> St -> M (flow St R)) (st : St) : M (flow St R) :=
  for_upto (Z.to_nat (hi - lo)) lo body st.

(** ** The package *)

Variable eqb : T -> T -> bool.
Variable ltb : T -> T -> bool.

(** [Compare]: the loop runs over the common prefix and returns at the
    first pair that is not [==]; the lengths decide after it. *)
Definition Compare (s1 s2 : slice) : M Z :=
  let maxLen := len s1 in
  let maxLen := if maxLen >? len s2 then len s2 else maxLen in
  f <- for_range 0 maxLen (fun i (_ : unit) =>
         x <- index s1 i ;;
         y <- index s2 i ;;
         if eqb x y then ret (Next tt)
         else
           x' <- index s1 i ;;
           y' <- index s2 i ;;
           if ltb x' y' then ret (Return (-1)) else ret (Return 1)) tt ;;
  match f with
  | Return r => ret r
  | Next _ =>
      if len s1 =? len s2 then ret 0
      else if len s1 <? len s2 then ret (-1)
      else ret 1
  end.

(** [Index]. *)
Definition Index (s : slice) (v : T) : M Z :=
  f <- for_range 0 (len s) (fun i (_ : unit) =>
         x <- index s i ;;
         if eqb x v then ret (Return i) else ret (Next tt)) tt ;;
  match f with
  | Return r => ret r
  | Next _ => ret (-1)
  end.

(** [Contains]: a loop of its own, it does not call [Index]. *)
Definition Contains (s : slice) (v : T) : M bool :=
  f <- for_range 0 (len s) (fun i (_ : unit) =>
         x <- index s i ;;
         if eqb x v then ret (Return true) else ret (Next tt)) tt ;;
  match f with
  | Return r => ret r
  | Next _ => ret false
  end.

(** [Insert].  The source declares the variadic parameter as [v] and
    its body, taken over from the SliceTricks page, reads [vs] and
    allocates with [make([]int, ...)]; the model reads the parameter
    for [vs] and the element type for [int].  The variadic parameter
    is a slice: a call [Insert(s, i, t...)] passes [t] itself. *)
Definition Insert (s : slice) (i : Z) (vs : slice) : M slice :=
  let n := len s + len vs in
  if n <=? cap s then
    s2 <- slice_to s n ;;
    d <- slice_from s2 (i + len vs) ;;
    t <- slice_from s i ;;
    _ <- copy d t ;;
    d' <- slice_from s2 i ;;
    _ <- copy d' vs ;;
    ret s2
  else
    s2 <- make (len s + len vs) (len s + len vs) ;;
    t <- slice_to s i ;;
    _ <- copy s2 t ;;
    d <- slice_from s2 i ;;
    _ <- copy d vs ;;
    d' <- slice_from s2 (i + len vs) ;;
    t' <- slice_from s i ;;
    _ <- copy d' t' ;;
    ret s2.

(** [Delete]: [return s[:i+copy(s[i:], s[j:])]]. *)
Definition Delete (s : slice) (i j : Z) : M slice :=
  d <- slice_from s i ;;
  t <- slice_from s j ;;
  n <- copy d t ;;
  slice_to s (i + n).

(** [Clone]. *)
Definition Clone (s : slice) : M slice :=
  s2 <- make (len s) (cap s) ;;
  _ <- copy s2 s ;;
  ret s2.

(** [Compact]: [j] is the loop's state. *)
Definition Compact (s : slice) : M slice :=
  if (len s =? 0) || (len s =? 1) then ret s
  else
    f <- for_range 1 (len s) (fun i j =>
           x <- index s i ;;
           y <- index s (j - 1) ;;
           if eqb x y then ret (Next j)
           else
             x' <- index s i ;;
             _ <- assign s j x' ;;
             ret (Next (j + 1))) 1 ;;
    match f with
    | Next j => slice_to s j
    | Return r => ret r
    end.

(** [CompactFunc]. *)
Definition CompactFunc (s : slice) (cmp : T -> T -> bool) : M slice :=
  if (len s =? 0) || (len s =? 1) then ret s
  else
    f <- for_range 1 (len s) (fun i j =>
           x <- index s i ;;
           y <- index s (j - 1) ;;
           if cmp x y then ret (Next j)
           else
             x' <- index s i ;;
             _ <- assign s j x' ;;
             ret (Next (j + 1))) 1 ;;
    match f with
    | Next j => slice_to s j
    | Return r => ret r
    end.

(** [Grow]: [return append(s[:cap(s)], make([]T, n, n)...)[:len(s)]].
    The size [n] is the caller's: [make] and [append] run with the
    check of the run time's limit. *)
Definition Grow (s : slice) (n : Z) : M slice :=
  a <- slice_to s (cap s) ;;
  z <- make_checked n n ;;
  r <- append_checked a z ;;
  slice_to r (len s).

(** [s[lo:hi:max]]: panics unless [0 <= lo <= hi <= max <= cap(s)]; the
    capacity of the result is [max - lo]. *)
Definition slice_expr3 (s : slice) (lo hi max : Z) : M slice :=
  if (0 <=? lo) && (lo <=? hi) && (hi <=? max) && (max <=? cap s) then
    ret (Slice (base s) (off s + Z.to_nat lo) (Z.to_nat (hi - lo))
               (Z.to_nat (max - lo)))
  else throw BoundsError.

(** [Equal]. *)
Definition Equal (s1 s2 : slice) : M bool :=
  if negb (len s1 =? len s2) then ret false
  else
    f <- for_range 0 (len s1) (fun i (_ : unit) =>
           x <- index s1 i ;;
           y <- index s2 i ;;
           if negb (eqb x y) then ret (Return false) else ret (Next tt)) tt ;;
    match f with
    | Return r => ret r
    | Next _ => ret true
    end.

(** [CompareFunc]: [cmp] returns an [int], and the first result that is
    not zero is returned as it is. *)
Definition CompareFunc (s1 s2 : slice) (cmp : T -> T -> Z) : M Z :=
  let maxLen := len s1 in
  let maxLen := if maxLen >? len s2 then len s2 else maxLen in
  f <- for_range 0 maxLen (fun i (_ : unit) =>
         x <- index s1 i ;;
         y <- index s2 i ;;
         let v := cmp x y in
         if negb (v =? 0) then ret (Return v) else ret (Next tt)) tt ;;
  match f with
  | Return r => ret r
  | Next _ =>
      if len s1 =? len s2 then ret 0
      else if len s1 <? len s2 then ret (-1)
      else ret 1
  end.

(** [IndexFunc]. *)
Definition IndexFunc (s : slice) (f : T -> bool) : M Z :=
  r <- for_range 0 (len s) (fun i (_ : unit) =>
         x <- index s i ;;
         if f x then ret (Return i) else ret (Next tt)) tt ;;
  match r with
  | Return r => ret r
  | Next _ => ret (-1)
  end.

(** [Clip]: [return s[:len(s):len(s)]]. *)
Definition Clip (s : slice) : M slice := slice_expr3 s 0 (len s) (len s).


End Model.

(** What [Compact] and [CompactFunc] leave in the slice, as a function
    on lists: an element is kept when [cmp] does not relate it to the
    last element kept before it, and the first element is always
    kept. *)
Fixpoint collapse_after {T} (cmp : T -> T -> bool) (last : T) (l : list T)
    : list T :=
  match l with
  | [] => []
  | x :: l' =>
      if cmp x last then collapse_after cmp last l'
      else x :: collapse_after cmp x l'
  end.

Definition collapse {T} (cmp : T -> T -> bool) (l : list T) : list T :=
  match l with
  | [] => []
  | x :: l' => x :: collapse_after cmp x l'
  end.

(** A run: its first element and the elements that follow it. *)
Definition run_elements {T} (g : T * list T) : list T := g.1 :: g.2.

(** A capacity policy for [append] to run the model with: double the
    capacity, or take what is needed when that is more. *)
Definition growcap_double (old need : nat) : nat := Nat.max need (2 * old).

Arguments Ok {T A} a h.
Arguments Panic {T A} p.

Notation "x <- m ;; k" := (bind m (fun x => k))
  (at level 100, m at next level, right associativity).

(** [EqualFunc] takes slices of two element types.  A store holds the
    arrays of one element type, so the second slice is read in a store
    of its own, which a read leaves as it is.  When the two types are
    the same, the two stores may be one and the slices may overlap. *)
Definition read_in {T1 T2 A} (h2 : list (list T2)) (m : M (T:=T2) A)
    : M (T:=T1) A :=
  fun h1 => match m h2 with
            | Ok a _ => Ok a h1
            | Panic p => Panic p
            end.

Definition EqualFunc {T1 T2} (s1 s2 : slice) (eq : T1 -> T2 -> bool)
    (h2 : list (list T2)) : M (T:=T1) bool :=
  if negb (len s1 =? len s2) then ret false
  else
    f <- for_range 0 (len s1) (fun i (_ : unit) =>
           x <- index s1 i ;;
           y <- read_in h2 (index s2 i) ;;
           if negb (eq x y) then ret (Return false) else ret (Next tt)) tt ;;
    match f with
    | Return r => ret r
    | Next _ => ret true
    end.

(** The comparison function that [Compare] applies to a pair of
    elements. *)
Definition three_way {T} (eqb ltb : T -> T -> bool) (x y : T) : Z :=
  if eqb x y then 0 else if ltb x y then -1 else 1.

(** The first result of [cmp] that is not zero, over the pairs of the
    common prefix of two lists. *)
Fixpoint first_nonzero {T} (cmp : T -> T -> Z) (l1 l2 : list T) : option Z :=
  match l1, l2 with
  | x :: l1', y :: l2' =>
      if cmp x y =? 0 then first_nonzero cmp l1' l2' else Some (cmp x y)
  | _, _ => None
  end.

(** The result of [Compare] and [CompareFunc] when no pair of the common
    prefix decides. *)
Definition by_length (n1 n2 : Z) : Z :=
  if n1 =? n2 then 0 else if n1 <? n2 then -1 else 1.

(** ** Runs on concrete stores *)

Example Delete_run :
  Delete (Slice 0 0 5 5) 1 3 [[1; 2; 3; 4; 5]]
  = Ok (Slice 0 0 3 5) [[1; 4; 5; 4; 5]].
Proof. reflexivity. Qed.

Example Delete_reversed_run :
  Delete (Slice 0 0 5 5) 3 1 [[1; 2; 3; 4; 5]]
  = Ok (Slice 0 0 5 5) [[1; 2; 3; 2; 3]].
Proof. reflexivity. Qed.

Example Insert_run_slow :
  (vs <- literal [8; 9] ;; Insert 0 (Slice 0 0 3 3) 1 vs) [[1; 2; 3]]
  = Ok (Slice 2 0 5 5) [[1; 2; 3]; [8; 9]; [1; 8; 9; 2; 3]].
Proof. reflexivity. Qed.

Example Insert_run_fast :
  (vs <- literal [8; 9] ;; Insert 0 (Slice 0 0 3 6) 1 vs) [[1; 2; 3; 0; 0; 0]]
  = Ok (Slice 0 0 5 6) [[1; 8; 9; 2; 3; 0]; [8; 9]].
Proof. reflexivity. Qed.

Example Insert_run_alias :
  Insert 0 (Slice 0 0 3 4) 0 (Slice 0 1 1 3) [[1; 2; 3; 0]]
  = Ok (Slice 0 0 4 4) [[1; 1; 2; 3]].
Proof. reflexivity. Qed.

Example Insert_run_alias_slow :
  Insert 0 (Slice 0 0 3 3) 0 (Slice 0 1 1 2) [[1; 2; 3]]
  = Ok (Slice 1 0 4 4) [[1; 2; 3]; [2; 1; 2; 3]].
Proof. reflexivity. Qed.

Example Compact_run :
  Compact Z.eqb (Slice 0 0 7 7) [[1; 1; 2; 2; 2; 3; 1]]
  = Ok (Slice 0 0 4 7) [[1; 2; 3; 1; 2; 3; 1]].
Proof. reflexivity. Qed.

Example Compare_run :
  Compare Z.eqb Z.ltb (Slice 0 0 2 2) (Slice 1 0 3 3) [[1; 2]; [1; 2; 3]] = Ok (-1) [[1; 2]; [1; 2; 3]]
  /\ Compare Z.eqb Z.ltb (Slice 0 0 2 2) (Slice 1 0 3 3) [[1; 3]; [1; 2; 3]] = Ok 1 [[1; 3]; [1; 2; 3]].
Proof. split; reflexivity. Qed.

Example Grow_run :
  Grow 0 growcap_double (2 ^ 45)%N (Slice 0 0 2 3) 4 [[1; 2; 7]]
  = Ok (Slice 2 0 2 7) [[1; 2; 7]; [0; 0; 0; 0]; [1; 2; 7; 0; 0; 0; 0]].
Proof. reflexivity. Qed.

Example Equal_run :
  Equal Z.eqb (Slice 0 0 3 3) (Slice 1 0 3 3) [[1; 2; 3]; [1; 2; 3]]
  = Ok true [[1; 2; 3]; [1; 2; 3]]
  /\ Equal Z.eqb (Slice 0 0 2 3) (Slice 1 0 3 3) [[1; 2; 3]; [1; 2; 3]]
     = Ok false [[1; 2; 3]; [1; 2; 3]].
Proof. split; reflexivity. Qed.

Example CompareFunc_run :
  CompareFunc (Slice 0 0 2 2) (Slice 1 0 3 3) Z.sub [[1; 5]; [1; 2; 3]]
  = Ok 3 [[1; 5]; [1; 2; 3]].
Proof. reflexivity. Qed.

Example IndexFunc_run :
  IndexFunc (Slice 0 0 3 3) Z.odd [[10; 20; 30]] = Ok (-1) [[10; 20; 30]].
Proof. reflexivity. Qed.

Example Clip_run :
  Clip (Slice 0 1 2 4) [[1; 2; 3; 4; 5]] = Ok (Slice 0 1 2 2) [[1; 2; 3; 4; 5]].
Proof. reflexivity. Qed.
(** ** The built-ins on valid slices *)

Section Builtins.

Context {T : Type}.
Implicit Types (h : list (list T)) (s d t : slice) (l a : list T).

Lemma in_bounds_true (lo hi c : Z) :
  0 <= lo <= hi -> hi <= c ->
  (0 <=? lo) && (lo <=? hi) && (hi <=? c) = true.
Proof. intros. rewrite !andb_true_iff, !Z.leb_le. lia. Qed.

Lemma in_bounds_false (lo hi c : Z) :
  ~ (0 <= lo <= hi /\ hi <= c) ->
  (0 <=? lo) && (lo <=? hi) && (hi <=? c) = false.
Proof.
  intros H. apply not_true_is_false. intros E. apply H.
  rewrite !andb_true_iff, !Z.leb_le in E. lia.
Qed.

Lemma slice_expr_ok h s lo hi :
  0 <= lo <= hi -> hi <= cap s ->
  slice_expr s lo hi h
  = Ok (Slice (base s) (off s + Z.to_nat lo) (Z.to_nat (hi - lo))
              (scap s - Z.to_nat lo)) h.
Proof. intros. unfold slice_expr. by rewrite in_bounds_true. Qed.

Lemma slice_expr_panics h s lo hi :
  ~ (0 <= lo <= hi /\ hi <= cap s) ->
  slice_expr s lo hi h = Panic BoundsError.
Proof. intros. unfold slice_expr. by rewrite in_bounds_false. Qed.

(** The same for [s[:n]] and [s[k:]], with the bounds as naturals. *)
Lemma slice_to_ok h s (n : nat) :
  (n <= scap s)%nat ->
  slice_to s (Z.of_nat n) h = Ok (Slice (base s) (off s) n (scap s)) h.
Proof.
  intros. unfold slice_to. rewrite slice_expr_ok by (unfold cap; lia).
  do 2 f_equal; lia.
Qed.


Lemma length_write o l a :
  (o + length l <= length a)%nat -> length (write o l a) = length a.
Proof.
  intros. unfold write.
  rewrite !length_app, length_take, length_drop. lia.
Qed.

Lemma lookup_write o l a (k : nat) :
  (o + length l <= length a)%nat ->
  write o l a !! k
  = if decide (o <= k < o + length l)%nat then l !! (k - o)%nat else a !! k.
Proof.
  intros Hle. unfold write. case_decide as Hk.
  - rewrite lookup_app_r by (rewrite length_take; lia).
    rewrite length_take, Nat.min_l by lia.
    by rewrite lookup_app_l by lia.
  - destruct (decide (k < o)%nat).
    + rewrite lookup_app_l by (rewrite length_take; lia).
      by rewrite lookup_take_lt by lia.
    + rewrite lookup_app_r by (rewrite length_take; lia).
      rewrite length_take, Nat.min_l by lia.
      rewrite lookup_app_r by lia.
      rewrite lookup_drop. f_equal. lia.
Qed.

Lemma write_nil o a : write o [] a = a.
Proof. unfold write. simpl. rewrite Nat.add_0_r. apply take_drop. Qed.

Lemma length_store_write h b o l : length (store_write h b o l) = length h.
Proof. unfold store_write. apply length_alter. Qed.

Lemma mem_store_write_ne h b b' o l :
  b <> b' -> mem (store_write h b o l) b' = mem h b'.
Proof.
  intros. unfold mem, store_write. by rewrite list_lookup_alter_ne.
Qed.

Lemma mem_store_write_eq h b o l :
  (o + length l <= length (mem h b))%nat ->
  mem (store_write h b o l) b = write o l (mem h b).
Proof.
  unfold mem, store_write. rewrite list_lookup_alter_eq.
  destruct (h !! b) as [a|]; simpl; [done|].
  intros. assert (l = []) as -> by (apply length_zero_iff_nil; lia).
  by rewrite write_nil.
Qed.

Lemma length_contents h s : valid h s -> length (contents h s) = slen s.
Proof.
  intros [? ?]. unfold contents. rewrite length_take, length_drop. lia.
Qed.

Lemma valid_store_write h b o l s :
  (o + length l <= length (mem h b))%nat ->
  valid h s -> valid (store_write h b o l) s.
Proof.
  intros Hl [Hc Hn]. split; [|done].
  destruct (decide (b = base s)) as [->|Hne].
  - by rewrite mem_store_write_eq, length_write.
  - by rewrite mem_store_write_ne.
Qed.

(** Writing inside the window of a slice shows as a write in its
    contents. *)
Lemma contents_write_same h s (i : nat) l :
  valid h s -> (i + length l <= slen s)%nat ->
  contents (store_write h (base s) (off s + i) l) s = write i l (contents h s).
Proof.
  intros [Hc Hn] Hl.
  assert (length (contents h s) = slen s) as Hlen by by apply length_contents.
  unfold contents in *. rewrite mem_store_write_eq by lia.
  apply list_eq. intros k.
  destruct (decide (k < slen s)%nat) as [Hk|Hk].
  - rewrite lookup_take_lt, lookup_drop, !lookup_write by lia.
    rewrite lookup_take_lt, lookup_drop by lia.
    repeat case_decide; try lia; [f_equal; lia | done].
  - rewrite lookup_take_ge by lia. symmetry. apply lookup_ge_None.
    rewrite length_write; lia.
Qed.

Lemma contents_write_at h s b o (i : nat) l :
  b = base s -> o = (off s + i)%nat ->
  valid h s -> (i + length l <= slen s)%nat ->
  contents (store_write h b o l) s = write i l (contents h s).
Proof. intros -> ->. apply contents_write_same. Qed.

(** A write outside the window of a slice does not show in it. *)
Lemma contents_write_other h b o l s :
  (o + length l <= length (mem h b))%nat ->
  b <> base s \/ (off s + slen s <= o)%nat \/ (o + length l <= off s)%nat ->
  contents (store_write h b o l) s = contents h s.
Proof.
  intros Hl Hd. unfold contents.
  destruct (decide (b = base s)) as [->|Hne]; [|by rewrite mem_store_write_ne].
  rewrite mem_store_write_eq by done.
  apply list_eq. intros k.
  destruct (decide (k < slen s)%nat) as [Hk|Hk].
  - rewrite !lookup_take_lt, !lookup_drop, lookup_write by lia.
    case_decide; [lia | done].
  - by rewrite !lookup_take_ge by lia.
Qed.

(** Allocation leaves the valid slices as they are. *)
Lemma mem_alloc_old h a b : (b < length h)%nat -> mem (h ++ [a]) b = mem h b.
Proof. intros. unfold mem. by rewrite lookup_app_l. Qed.

Lemma mem_alloc_new h a : mem (h ++ [a]) (length h) = a.
Proof. unfold mem. by rewrite list_lookup_middle. Qed.

Lemma mem_dangling h b : (length h <= b)%nat -> mem h b = [].
Proof. intros. unfold mem. by rewrite lookup_ge_None_2. Qed.

Lemma contents_alloc h a s : valid h s -> contents (h ++ [a]) s = contents h s.
Proof.
  intros [Hc Hn]. unfold contents.
  destruct (decide (base s < length h)%nat); [by rewrite mem_alloc_old|].
  rewrite mem_dangling in Hc by lia. simpl in Hc.
  replace (slen s) with 0%nat by lia. by rewrite !take_0.
Qed.

Lemma valid_alloc h a s : valid h s -> valid (h ++ [a]) s.
Proof.
  intros [Hc Hn]. split; [|done].
  destruct (decide (base s < length h)%nat); [by rewrite mem_alloc_old|].
  rewrite mem_dangling in Hc by lia. simpl in Hc. lia.
Qed.

(** The contents of [s[lo:hi]] when [hi <= len(s)]. *)
Lemma contents_reslice h s (lo n : nat) c :
  (lo + n <= slen s)%nat ->
  contents h (Slice (base s) (off s + lo) n c)
  = take n (drop lo (contents h s)).
Proof.
  intros. unfold contents. simpl.
  replace (slen s) with (lo + (slen s - lo))%nat at 1 by lia.
  by rewrite <- take_drop_commute, take_take, drop_drop, Nat.min_l by lia.
Qed.

Lemma contents_prefix h s (n : nat) c :
  (n <= slen s)%nat ->
  contents h (Slice (base s) (off s) n c) = take n (contents h s).
Proof.
  intros. unfold contents. simpl. by rewrite take_take, Nat.min_l by lia.
Qed.

Lemma take_contents h s (n : nat) :
  (slen s <= n)%nat -> take n (contents h s) = contents h s.
Proof.
  intros. unfold contents. rewrite take_take. f_equal. lia.
Qed.



Lemma index_ok h s (p : nat) x :
  (p < slen s)%nat -> contents h s !! p = Some x ->
  index s (Z.of_nat p) h = Ok x h.
Proof.
  intros Hp Hx. unfold index, len.
  destruct (Z.leb_spec 0 (Z.of_nat p)); [|lia].
  destruct (Z.ltb_spec (Z.of_nat p) (Z.of_nat (slen s))); [|lia].
  simpl. by rewrite Nat2Z.id, Hx.
Qed.

Lemma assign_ok h s (p : nat) x :
  (p < slen s)%nat ->
  assign s (Z.of_nat p) x h
  = Ok tt (store_write h (base s) (off s + p) [x]).
Proof.
  intros Hp. unfold assign, len.
  destruct (Z.leb_spec 0 (Z.of_nat p)); [|lia].
  destruct (Z.ltb_spec (Z.of_nat p) (Z.of_nat (slen s))); [|lia].
  simpl. by rewrite Nat2Z.id.
Qed.

End Builtins.


(** ** Successive writes into one array *)

Section Writes.

Context {T : Type}.
Implicit Types (l v c X pre mid post : list T).

Lemma write_app o pre mid post l :
  o = length pre -> length mid = length l ->
  write o l (pre ++ mid ++ post) = pre ++ l ++ post.
Proof.
  intros -> Hl. unfold write.
  rewrite take_app_length, drop_app_add, <- Hl.
  by rewrite drop_app_length.
Qed.



End Writes.
(** ** Delete *)

Section DeleteProps.

Context {T : Type}.
Implicit Types (h : list (list T)) (s : slice).

Lemma Delete_runs h s i j :
  (slen s <= scap s)%nat -> 0 <= i <= len s -> 0 <= j <= len s ->
  Delete s i j h
  = let n := Nat.min (slen s - Z.to_nat i) (slen s - Z.to_nat j) in
    Ok (Slice (base s) (off s) (Z.to_nat i + n) (scap s))
       (store_write h (base s) (off s + Z.to_nat i)
          (take n (drop (Z.to_nat j) (contents h s)))).
Proof.
  intros Hn Hi Hj. unfold Delete, bind, slice_from, slice_to.
  rewrite !slice_expr_ok by (unfold len, cap in *; lia). unfold copy. simpl.
  replace (Z.to_nat (len s - i)) with (slen s - Z.to_nat i)%nat
    by (unfold len; lia).
  replace (Z.to_nat (len s - j)) with (slen s - Z.to_nat j)%nat
    by (unfold len; lia).
  rewrite slice_expr_ok by (unfold len, cap in *; lia). simpl.
  rewrite contents_reslice by (unfold len in *; lia).
  rewrite take_take.
  rewrite Nat.add_0_r, Z.sub_0_r, Nat.sub_0_r.
  do 3 f_equal; lia.
Qed.

(** X17.  [Delete] panics exactly when one of the bounds lies outside
    [[0, len(s)]]: the two slice expressions [s[i:]] and [s[j:]] are the
    only checks it makes, and neither compares [i] with [j]. *)
Lemma Delete_panics_iff h s i j :
  (slen s <= scap s)%nat ->
  (exists p, Delete s i j h = Panic p)
  <-> ~ (0 <= i <= len s /\ 0 <= j <= len s).
Proof.
  intros Hn. split.
  - intros [p Hp] [Hi Hj]. by rewrite Delete_runs in Hp.
  - intros Hb. exists BoundsError. unfold Delete, bind, slice_from.
    destruct (decide (0 <= i <= len s)) as [Hi|Hi].
    + rewrite (slice_expr_ok _ _ i) by (unfold len, cap in *; lia).
      rewrite slice_expr_panics; [done|lia].
    + rewrite slice_expr_panics; [done|lia].
Qed.

(** On a reversed range, [0 <= j < i <= len(s)], nothing stops
    [Delete]: it copies [s[j:j+len(s)-i]] over [s[i:]] and returns the
    whole of [s]. *)
Lemma Delete_reversed_range h s i j :
  (slen s <= scap s)%nat -> 0 <= j < i -> i <= len s ->
  Delete s i j h
  = Ok s (store_write h (base s) (off s + Z.to_nat i)
            (take (slen s - Z.to_nat i) (drop (Z.to_nat j) (contents h s)))).
Proof.
  intros Hn Hji Hi. rewrite Delete_runs by lia. simpl.
  unfold len in Hi. rewrite Nat.min_l by lia.
  f_equal. destruct s; simpl in *. f_equal. lia.
Qed.

(** On a range [0 <= i <= j <= len(s)] the tail [s[j:]] moves to
    position [i] of the same backing array. *)
Lemma Delete_in_range h s i j :
  valid h s -> 0 <= i <= j -> j <= len s ->
  Delete s i j h
  = Ok (Slice (base s) (off s) (slen s - Z.to_nat (j - i)) (scap s))
       (store_write h (base s) (off s + Z.to_nat i)
          (drop (Z.to_nat j) (contents h s))).
Proof.
  intros [Hc Hn] Hij Hj. rewrite Delete_runs by lia. simpl.
  pose proof (length_contents h s (conj Hc Hn)) as Hlen.
  unfold len in *.
  rewrite Nat.min_r by lia.
  rewrite take_ge by (rewrite length_drop; lia).
  do 2 f_equal. lia.
Qed.

Lemma store_write_id h b o l :
  l = take (length l) (drop o (mem h b)) -> store_write h b o l = h.
Proof.
  intros Hl. unfold store_write. apply list_eq. intros k.
  destruct (decide (b = k)) as [->|Hne]; [|by rewrite list_lookup_alter_ne].
  rewrite list_lookup_alter_eq. unfold mem in Hl.
  destruct (h !! k) as [a|] eqn:E; [|done]. simpl in *. f_equal.
  unfold write. remember (length l) as n eqn:Hn. clear Hn. subst l.
  by rewrite app_assoc, take_take_drop, take_drop.
Qed.

(** [Delete] on a range inside the slice, with everything it does to
    the store. *)
Lemma Delete_shifts_tail h s i j :
  valid h s -> 0 <= i <= j -> j <= len s ->
  exists r h',
    Delete s i j h = Ok r h'
    /\ base r = base s /\ off r = off s /\ scap r = scap s
    /\ len r = len s - (j - i)
    /\ contents h' r
       = take (Z.to_nat i) (contents h s) ++ drop (Z.to_nat j) (contents h s)
    /\ length h' = length h
    /\ (forall b, b <> base s -> mem h' b = mem h b)
    /\ mem h' (base s)
       = write (off s + Z.to_nat i) (drop (Z.to_nat j) (contents h s))
               (mem h (base s))
    /\ contents h' s
       = take (Z.to_nat i) (contents h s) ++ drop (Z.to_nat j) (contents h s)
         ++ drop (slen s - Z.to_nat (j - i)) (contents h s)
    /\ valid h' r.
Proof.
  intros Hv Hij Hj. pose proof Hv as [Hc Hn].
  pose proof (length_contents h s Hv) as Hlen.
  assert (Hj' : (Z.to_nat j <= slen s)%nat) by (unfold len in Hj; lia).
  assert (Hfit : (off s + Z.to_nat i
                  + length (drop (Z.to_nat j) (contents h s))
                  <= length (mem h (base s)))%nat)
    by (rewrite length_drop; lia).
  assert (Hs : contents (store_write h (base s) (off s + Z.to_nat i)
                           (drop (Z.to_nat j) (contents h s))) s
               = take (Z.to_nat i) (contents h s)
                 ++ drop (Z.to_nat j) (contents h s)
                 ++ drop (slen s - Z.to_nat (j - i)) (contents h s)).
  { rewrite contents_write_same by (try rewrite length_drop; (done || lia)).
    unfold write. rewrite length_drop. do 3 f_equal. lia. }
  eexists _, _. split; [by apply Delete_in_range|]. simpl.
  split_and!; try done.
  - unfold len in *. simpl. lia.
  - rewrite contents_prefix by lia. rewrite Hs.
    rewrite app_assoc.
    by rewrite take_app_length'
      by (rewrite length_app, length_take, length_drop; lia).
  - apply length_store_write.
  - intros b Hb. by apply mem_store_write_ne.
  - by apply mem_store_write_eq.
  - apply valid_store_write; [done|]. split; simpl; lia.
Qed.

(** C4.  For [0 <= i <= j <= len(s)], [Delete(s, i, j)] returns a view
    [r] of the backing array of [s] (same array, same offset, same
    capacity) of length [len(s) - (j - i)] that shows
    [s[0:i] ++ s[j:]].  Nothing is allocated: the store has the arrays
    it had, every array but the one of [s] is as it was, and in the
    array of [s] the tail [s[j:]] has been written at position [i], so
    that the old window of [s] now shows the result followed by the last
    [j - i] elements it had. *)
Theorem Delete_removes_range h s i j :
  valid h s -> 0 <= i <= j -> j <= len s ->
  exists r h',
    Delete s i j h = Ok r h'
    /\ base r = base s /\ off r = off s /\ scap r = scap s
    /\ len r = len s - (j - i)
    /\ contents h' r
       = take (Z.to_nat i) (contents h s) ++ drop (Z.to_nat j) (contents h s)
    /\ length h' = length h
    /\ (forall b, b <> base s -> mem h' b = mem h b)
    /\ mem h' (base s)
       = write (off s + Z.to_nat i) (drop (Z.to_nat j) (contents h s))
               (mem h (base s))
    /\ contents h' s
       = take (Z.to_nat i) (contents h s) ++ drop (Z.to_nat j) (contents h s)
         ++ drop (slen s - Z.to_nat (j - i)) (contents h s)
    /\ valid h' r.
Proof. apply Delete_shifts_tail. Qed.

(** C9.  Deleting the empty range [[i, i)] with [0 <= i <= len(s)]
    returns the slice it was given (same array, offset, length and
    capacity) and leaves the store as it was, so the elements at every
    index are the ones [s] had. *)
Theorem Delete_empty_range h s i :
  valid h s -> 0 <= i <= len s -> Delete s i i h = Ok s h.
Proof.
  intros Hv Hi. pose proof Hv as [Hc Hn].
  pose proof (length_contents h s Hv) as Hlen.
  rewrite Delete_in_range by (done || lia).
  rewrite Z.sub_diag. simpl. rewrite Nat.sub_0_r.
  f_equal; [by destruct s|].
  apply store_write_id. rewrite length_drop, Hlen. unfold len in Hi.
  change (take ?n (drop (off s + ?k) (mem h (base s))))
    with (contents h (Slice (base s) (off s + k) n 0)).
  rewrite contents_reslice by lia.
  by rewrite take_ge by (rewrite length_drop; lia).
Qed.

End DeleteProps.

(** C1.  [Delete] makes no check that [i <= j].  On [s = [1,2,3,4,5]]
    with [i = 3] and [j = 1], both within [[0, len(s)]] and [i > j], it
    does not panic: it copies [s[1:3]] over [s[3:5]] and returns the
    five cells. *)
Theorem Delete_reversed_range_returns :
  let h := [[1; 2; 3; 4; 5]] in
  let s := Slice 0 0 5 5 in
  valid h s /\ contents h s = [1; 2; 3; 4; 5]
  /\ 1 < 3 /\ 3 <= len s
  /\ Delete s 3 1 h = Ok s [[1; 2; 3; 2; 3]].
Proof.
  cbv zeta.
  split_and!; first [done | split; simpl; lia | unfold len; simpl; lia].
Qed.
(** ** Insert and Clone *)

Section InsertProps.

Context {T : Type}.
Variable zero : T.
Implicit Types (h : list (list T)) (s vs : slice).



Lemma valid_not_fresh h s :
  valid h s -> length h <> base s \/ (off s + slen s <= 0)%nat.
Proof.
  intros [Hc Hn]. destruct (decide (length h = base s)) as [E|]; [|by left].
  right. rewrite mem_dangling in Hc by lia. simpl in Hc. lia.
Qed.





Lemma Clone_copies h s :
  valid h s ->
  exists h',
    let r := Slice (length h) 0 (slen s) (scap s) in
    Clone zero s h = Ok r h'
    /\ contents h' r = contents h s
    /\ valid h' r /\ length h' = S (length h)
    /\ (forall x, valid h x -> valid h' x /\ contents h' x = contents h x).
Proof.
  intros Hs. pose proof Hs as [Hc Hn].
  pose proof (length_contents h s Hs) as Hls.
  unfold Clone, bind, make, len, cap.
  destruct (Z.leb_spec 0 (Z.of_nat (slen s))) as [_|]; [|lia].
  destruct (Z.leb_spec (Z.of_nat (slen s)) (Z.of_nat (scap s))) as [_|]; [|lia].
  simpl. rewrite !Nat2Z.id. unfold copy, ret. simpl.
  rewrite Nat.min_id.
  set (h0 := h ++ [replicate (scap s) zero]).
  set (r := Slice (length h) 0 (slen s) (scap s)).
  assert (Hm0 : mem h0 (length h) = replicate (scap s) zero)
    by apply mem_alloc_new.
  assert (Hr0 : valid h0 r).
  { split; simpl; [|done]. rewrite Hm0, length_replicate. lia. }
  assert (Hs0 : contents h0 s = contents h s) by by apply contents_alloc.
  rewrite take_contents, Hs0 by lia.
  assert (Hfit : (0 + length (contents h s) <= length (mem h0 (length h)))%nat).
  { rewrite Hm0, length_replicate. lia. }
  eexists. split; [done|]. split_and!.
  - rewrite (contents_write_at h0 r _ _ 0) by first [done | simpl; lia].
    unfold write. simpl.
    rewrite drop_ge, app_nil_r; [done|].
    rewrite length_contents by done. simpl. lia.
  - by apply valid_store_write.
  - unfold h0. rewrite length_store_write, length_app. simpl. lia.
  - intros x Hx. split.
    + apply valid_store_write; [done|]. by apply valid_alloc.
    + rewrite contents_write_other; [by apply contents_alloc|done|].
      destruct (valid_not_fresh h x Hx); [by left|right; left; lia].
Qed.

End InsertProps.

(** C2.  The fast path of [Insert] moves the tail of [s] before it
    reads the values, so values that lie in the cells the tail moves
    to are lost.  On [s = [1,2,3]] of capacity 4, [Insert(s, 0,
    s[1:2]...)] inserts the value [2] at index 0 and should return
    [[2,1,2,3]]; it returns [[1,1,2,3]]. *)
Theorem Insert_overlapping_values_run :
  let h := [[1; 2; 3; 0]] in
  let s := Slice 0 0 3 4 in
  exists vs r h',
    slice_expr s 1 2 h = Ok vs h
    /\ valid h s /\ valid h vs
    /\ contents h s = [1; 2; 3] /\ contents h vs = [2]
    /\ Insert 0 s 0 vs h = Ok r h'
    /\ contents h' r = [1; 1; 2; 3].
Proof.
  cbv zeta. eexists _, _, _. split; [reflexivity|].
  split_and!; first [done | split; simpl; lia].
Qed.

(** ** Insert, then delete *)

Section RoundTrip.

Context {T : Type}.
Variable zero : T.
Implicit Types (h : list (list T)) (s : slice).





End RoundTrip.

(** ** Index and Contains *)

Section SearchProps.

Context {T : Type}.
Variable eqb : T -> T -> bool.
Implicit Types (h : list (list T)) (s : slice).

(** The two functions run the same loop and differ in what they return
    when it finds an element: [found i] below. *)
Lemma search_loop {R} (found : Z -> R) h s (v : T) (k p : nat) :
  valid h s -> (p + k = slen s)%nat ->
  for_upto k (Z.of_nat p)
    (fun i (_ : unit) =>
       x <- index s i ;;
       if eqb x v then ret (Return (found i)) else ret (Next tt)) tt h
  = Ok (match list_find (fun x => eqb x v = true) (drop p (contents h s)) with
        | Some (q, _) => Return (found (Z.of_nat (p + q)))
        | None => Next tt
        end) h.
Proof.
  intros Hs. pose proof (length_contents h s Hs) as Hl.
  revert p. induction k as [|k IH]; intros p Hp.
  - simpl. by rewrite drop_ge by lia.
  - destruct (lookup_lt_is_Some_2 (contents h s) p) as [x Hx]; [lia|].
    simpl. unfold bind at 1 2.
    rewrite (index_ok h s p x) by (done || lia).
    rewrite (drop_S _ _ _ Hx). simpl.
    destruct (eqb x v) eqn:E.
    + rewrite decide_True by done. simpl. by rewrite Nat.add_0_r.
    + rewrite decide_False by done.
      replace (Z.of_nat p + 1) with (Z.of_nat (S p)) by lia.
      unfold ret at 1. rewrite IH by lia.
      destruct (list_find _ (drop (S p) (contents h s))) as [[q y]|]; simpl;
        [|done].
      do 3 f_equal. lia.
Qed.

Lemma Index_finds h s (v : T) :
  valid h s ->
  Index eqb s v h
  = Ok (match list_find (fun x => eqb x v = true) (contents h s) with
        | Some (q, _) => Z.of_nat q
        | None => -1
        end) h.
Proof.
  intros Hs. unfold Index, for_range. unfold bind at 1.
  rewrite Z.sub_0_r. unfold len. rewrite Nat2Z.id.
  change 0 with (Z.of_nat 0).
  rewrite (search_loop (fun i => i)) by (done || lia).
  rewrite drop_0. by destruct (list_find _ _) as [[q y]|].
Qed.

Lemma Contains_finds h s (v : T) :
  valid h s ->
  Contains eqb s v h
  = Ok (match list_find (fun x => eqb x v = true) (contents h s) with
        | Some _ => true
        | None => false
        end) h.
Proof.
  intros Hs. unfold Contains, for_range. unfold bind at 1.
  rewrite Z.sub_0_r. unfold len. rewrite Nat2Z.id.
  change 0 with (Z.of_nat 0).
  rewrite (search_loop (fun _ => true)) by (done || lia).
  rewrite drop_0. by destruct (list_find _ _) as [[q y]|].
Qed.

(** C8.  On every slice and for every value, whatever the [==] of the
    element type, [Contains] and [Index] both return and leave the
    store as it was, and [Contains(s, v)] is true exactly when
    [Index(s, v) >= 0]. *)
Theorem Contains_iff_Index h s (v : T) :
  valid h s ->
  exists (b : bool) (n : Z),
    Contains eqb s v h = Ok b h
    /\ Index eqb s v h = Ok n h
    /\ (b = true <-> 0 <= n).
Proof.
  intros Hs. rewrite Contains_finds, Index_finds by done.
  eexists _, _. split; [done|]. split; [done|].
  destruct (list_find _ _) as [[q y]|]; split; (done || lia).
Qed.

End SearchProps.

(** ** Compare *)

Section CompareProps.

Context {T : Type}.
Variables eqb ltb : T -> T -> bool.
Implicit Types (h : list (list T)) (s : slice) (c : list T).

Lemma Compare_loop h s1 s2 (k p : nat) :
  valid h s1 -> valid h s2 ->
  (p + k <= slen s1)%nat -> (p + k <= slen s2)%nat ->
  exists f,
    for_upto k (Z.of_nat p)
      (fun i (_ : unit) =>
         x <- index s1 i ;;
         y <- index s2 i ;;
         if eqb x y then ret (Next tt)
         else
           x' <- index s1 i ;;
           y' <- index s2 i ;;
           if ltb x' y' then ret (Return (-1)) else ret (Return 1)) tt h
    = Ok f h
    /\ match f with
       | Return r =>
           exists (q : nat) x y,
             (p <= q < p + k)%nat
             /\ contents h s1 !! q = Some x /\ contents h s2 !! q = Some y
             /\ eqb x y = false
             /\ (forall j x' y', (p <= j < q)%nat ->
                   contents h s1 !! j = Some x' ->
                   contents h s2 !! j = Some y' -> eqb x' y' = true)
             /\ r = (if ltb x y then -1 else 1)
       | Next _ =>
           forall j x' y', (p <= j < p + k)%nat ->
             contents h s1 !! j = Some x' ->
             contents h s2 !! j = Some y' -> eqb x' y' = true
       end.
Proof.
  intros Hs1 Hs2.
  pose proof (length_contents h s1 Hs1) as Hl1.
  pose proof (length_contents h s2 Hs2) as Hl2.
  revert p. induction k as [|k IH]; intros p Hp1 Hp2.
  - exists (Next tt). split; [done|]. intros j ? ? Hj. lia.
  - destruct (lookup_lt_is_Some_2 (contents h s1) p) as [x Hx]; [lia|].
    destruct (lookup_lt_is_Some_2 (contents h s2) p) as [y Hy]; [lia|].
    simpl. unfold bind at 1 2 3.
    rewrite (index_ok h s1 p x), (index_ok h s2 p y) by (done || lia).
    destruct (eqb x y) eqn:E.
    + unfold ret at 1.
      replace (Z.of_nat p + 1) with (Z.of_nat (S p)) by lia.
      destruct (IH (S p)) as (f & Ef & Hf); [lia..|].
      exists f. split; [done|]. destruct f as [[]|r].
      * intros j x' y' Hj Hx' Hy'. destruct (decide (j = p)) as [->|].
        -- congruence.
        -- apply (Hf j); (done || lia).
      * destruct Hf as (q & x' & y' & Hq & Hx' & Hy' & Hne & Hsame & Hr).
        exists q, x', y'. split_and!; try done; [lia..|].
        intros j x'' y'' Hj Hx'' Hy''. destruct (decide (j = p)) as [->|].
        -- congruence.
        -- apply (Hsame j); (done || lia).
    + unfold bind.
      rewrite (index_ok h s1 p x), (index_ok h s2 p y) by (done || lia).
      exists (Return (if ltb x y then -1 else 1)).
      split; [by destruct (ltb x y)|].
      exists p, x, y. split_and!; try done; [lia..|]. intros j ? ? Hj. lia.
Qed.

(** C5.  [Compare] returns, leaves the store as it was, and its result
    is the lexicographic one.  Either there is a first index [q] of the
    common prefix at which the elements are not [==], and the result is
    [-1] when [s1[q] < s2[q]] and [+1] otherwise; or the elements are
    [==] at every index of the common prefix, and the result is [0] for
    equal lengths, [-1] when [s1] is the shorter and [+1] when it is
    the longer. *)
Theorem Compare_lexicographic h s1 s2 :
  valid h s1 -> valid h s2 ->
  exists r : Z,
    Compare eqb ltb s1 s2 h = Ok r h
    /\ ((exists (q : nat) x y,
           (q < Nat.min (slen s1) (slen s2))%nat
           /\ contents h s1 !! q = Some x /\ contents h s2 !! q = Some y
           /\ eqb x y = false
           /\ (forall j x' y', (j < q)%nat ->
                 contents h s1 !! j = Some x' -> contents h s2 !! j = Some y' ->
                 eqb x' y' = true)
           /\ r = (if ltb x y then -1 else 1))
        \/ ((forall j x' y', (j < Nat.min (slen s1) (slen s2))%nat ->
               contents h s1 !! j = Some x' -> contents h s2 !! j = Some y' ->
               eqb x' y' = true)
            /\ r = (if decide (len s1 = len s2) then 0
                    else if decide (len s1 < len s2) then -1 else 1))).
Proof.
  intros Hs1 Hs2. unfold Compare, for_range. unfold bind at 1.
  set (m := if len s1 >? len s2 then len s2 else len s1).
  assert (Hm : Z.to_nat (m - 0) = Nat.min (slen s1) (slen s2)).
  { unfold m, len. destruct (Z.gtb_spec (Z.of_nat (slen s1)) (Z.of_nat (slen s2))); lia. }
  rewrite Hm. change 0 with (Z.of_nat 0) at 1.
  destruct (Compare_loop h s1 s2 (Nat.min (slen s1) (slen s2)) 0)
    as (f & Ef & Hf); [done || lia ..|].
  rewrite Ef. destruct f as [[]|r].
  - assert (Hall : forall j x' y', (j < Nat.min (slen s1) (slen s2))%nat ->
              contents h s1 !! j = Some x' -> contents h s2 !! j = Some y' ->
              eqb x' y' = true)
      by (intros j x' y' Hj; apply (Hf j); lia).
    unfold ret.
    destruct (Z.eqb_spec (len s1) (len s2));
      [|destruct (Z.ltb_spec (len s1) (len s2))];
      (eexists; split; [done|]; right; split; [done|]);
      repeat case_decide; (done || lia).
  - exists r. split; [done|]. left.
    destruct Hf as (q & x & y & Hq & Hx & Hy & Hne & Hsame & Hr).
    exists q, x, y. split_and!; try done; [lia..|].
    intros j x' y' Hj. apply (Hsame j). lia.
Qed.

End CompareProps.

(** ** Compact and CompactFunc *)

Section CollapseProps.

Context {T : Type}.
Variable cmp : T -> T -> bool.
Implicit Types (l : list T) (y : T).

Lemma length_collapse_after y l :
  (length (collapse_after cmp y l) <= length l)%nat.
Proof.
  revert y. induction l as [|x l IH]; intros y; simpl; [done|].
  destruct (cmp x y); simpl.
  - specialize (IH y). lia.
  - specialize (IH x). lia.
Qed.

Lemma sublist_collapse_after y l : collapse_after cmp y l `sublist_of` l.
Proof.
  revert y. induction l as [|x l IH]; intros y; simpl; [done|].
  destruct (cmp x y); [by apply sublist_cons|by apply sublist_skip].
Qed.

(** In what is kept, no element is related by [cmp] to the one before
    it. *)
Lemma collapse_after_adjacent y l (i : nat) a b :
  (y :: collapse_after cmp y l) !! i = Some a ->
  (y :: collapse_after cmp y l) !! S i = Some b ->
  cmp b a = false.
Proof.
  revert y i. induction l as [|x l IH]; intros y i; simpl.
  - by destruct i.
  - destruct (cmp x y) eqn:E; [apply IH|].
    destruct i as [|i]; simpl.
    + by intros [= <-] [= <-].
    + apply (IH x i).
Qed.

(** The list splits into the elements related to [y], which are
    dropped, and runs, of which the first elements are kept. *)
Lemma collapse_after_runs y l :
  exists (dropped : list T) (gs : list (T * list T)),
    l = dropped ++ concat (run_elements <$> gs)
    /\ Forall (fun z => cmp z y = true) dropped
    /\ Forall (fun g => Forall (fun z => cmp z g.1 = true) g.2) gs
    /\ collapse_after cmp y l = gs.*1.
Proof.
  revert y. induction l as [|x l IH]; intros y; simpl.
  - by exists [], [].
  - destruct (cmp x y) eqn:E.
    + destruct (IH y) as (d & gs & -> & Hd & Hgs & ->).
      exists (x :: d), gs. split_and!; try done. by constructor.
    + destruct (IH x) as (d & gs & -> & Hd & Hgs & ->).
      exists [], ((x, d) :: gs). split_and!; try done. by constructor.
Qed.

Lemma collapse_runs l :
  exists gs : list (T * list T),
    l = concat (run_elements <$> gs)
    /\ Forall (fun g => Forall (fun z => cmp z g.1 = true) g.2) gs
    /\ collapse cmp l = gs.*1.
Proof.
  destruct l as [|x l]; [by exists []|].
  destruct (collapse_after_runs x l) as (d & gs & -> & Hd & Hgs & E).
  exists ((x, d) :: gs). simpl. rewrite E. split_and!; try done.
  by constructor.
Qed.

Lemma collapse_adjacent l (i : nat) a b :
  collapse cmp l !! i = Some a -> collapse cmp l !! S i = Some b ->
  cmp b a = false.
Proof.
  destruct l as [|x l]; [done|]. apply collapse_after_adjacent.
Qed.

Lemma sublist_collapse l : collapse cmp l `sublist_of` l.
Proof.
  destruct l as [|x l]; [done|].
  apply sublist_skip, sublist_collapse_after.
Qed.

Lemma length_collapse l : (length (collapse cmp l) <= length l)%nat.
Proof.
  destruct l as [|x l]; simpl; [done|].
  pose proof (length_collapse_after x l). lia.
Qed.

End CollapseProps.

Section CompactProps.

Context {T : Type}.
Variable cmp : T -> T -> bool.
Implicit Types (h : list (list T)) (s : slice) (y : T).

(** Writing [x] at the first cell after the kept elements. *)
Lemma write_kept (kept junk rest : list T) (x : T) :
  write (length kept) [x] (kept ++ junk ++ x :: rest)
  = (kept ++ [x]) ++ drop 1 (junk ++ [x]) ++ rest.
Proof.
  assert (junk ++ x :: rest
          = take 1 (junk ++ [x]) ++ drop 1 (junk ++ [x]) ++ rest) as ->.
  { by rewrite app_assoc, take_drop, <- app_assoc. }
  rewrite write_app; [by rewrite <- app_assoc|done|].
  by destruct junk.
Qed.

(** The loop, from index [p] on with [q] elements kept: [kept] are the
    elements kept so far, of which [y] is the last, [junk] the cells
    between them and the index, [rest] the elements not yet seen. *)
Lemma Compact_loop h s (kept junk rest : list T) y :
  valid h s ->
  contents h s = kept ++ junk ++ rest ->
  last kept = Some y ->
  exists h' junk',
    for_upto (length rest) (Z.of_nat (length kept + length junk))
      (fun i j =>
         x <- index s i ;;
         y <- index s (j - 1) ;;
         if cmp x y then ret (Next j)
         else
           x' <- index s i ;;
           _ <- assign s j x' ;;
           ret (Next (j + 1))) (Z.of_nat (length kept)) h
    = Ok (Next (R:=slice)
            (Z.of_nat (length kept + length (collapse_after cmp y rest)))) h'
    /\ contents h' s = (kept ++ collapse_after cmp y rest) ++ junk'
    /\ valid h' s /\ length h' = length h
    /\ (forall b, b <> base s -> mem h' b = mem h b).
Proof.
  intros Hs Hc Hy. revert h kept junk y Hs Hc Hy.
  induction rest as [|x rest IH]; intros h kept junk y Hs Hc Hy.
  - exists h, junk. simpl. rewrite !app_nil_r, Nat.add_0_r in *. done.
  - pose proof (length_contents h s Hs) as Hl.
    rewrite Hc, !length_app in Hl. simpl in Hl.
    assert (Hq : (0 < length kept)%nat) by (destruct kept; [done|simpl; lia]).
    assert (Hx : contents h s !! (length kept + length junk)%nat = Some x).
    { rewrite Hc, app_assoc, <- length_app. by rewrite list_lookup_middle. }
    assert (Hy' : contents h s !! (length kept - 1)%nat = Some y).
    { rewrite Hc, lookup_app_l by lia. rewrite last_lookup in Hy.
      by replace (length kept - 1)%nat with (pred (length kept)) by lia. }
    simpl. unfold bind at 1 2 3.
    rewrite (index_ok h s _ x) by (done || lia).
    replace (Z.of_nat (length kept) - 1) with (Z.of_nat (length kept - 1))
      by lia.
    rewrite (index_ok h s _ y) by (done || lia).
    replace (Z.of_nat (length kept + length junk) + 1)
      with (Z.of_nat (length kept + length (junk ++ [x])))
      by (rewrite length_app; simpl; lia).
    destruct (cmp x y) eqn:E.
    + unfold ret at 1.
      apply (IH h kept (junk ++ [x]) y); [done| |done].
      by rewrite Hc, <- !app_assoc.
    + unfold bind.
      rewrite (index_ok h s _ x) by (done || lia).
      rewrite assign_ok by lia. unfold ret at 1.
      set (h1 := store_write h (base s) (off s + length kept) [x]).
      assert (Hs1 : valid h1 s).
      { apply valid_store_write; [|done]. destruct Hs. simpl. lia. }
      assert (Hc1 : contents h1 s
                    = (kept ++ [x]) ++ drop 1 (junk ++ [x]) ++ rest).
      { unfold h1. rewrite contents_write_same by (done || simpl; lia).
        rewrite Hc. apply write_kept. }
      destruct (IH h1 (kept ++ [x]) (drop 1 (junk ++ [x])) x)
        as (h' & junk' & E' & Hc' & Hs' & Hl' & Hfr'); [done..| |].
      { by rewrite last_snoc. }
      exists h', junk'.
      rewrite !length_app, length_drop, length_app in E'. simpl in E'.
      replace (Z.of_nat (length kept) + 1)
        with (Z.of_nat (length kept + 1)) by lia.
      replace (length kept + 1 + (length junk + 1 - 1))%nat
        with (length kept + (length junk + 1))%nat in E' by lia.
      rewrite length_app. simpl.
      split_and!.
      * etrans; [exact E'|]. do 3 f_equal. lia.
      * by rewrite Hc', <- !app_assoc.
      * done.
      * unfold h1 in Hl'. by rewrite length_store_write in Hl'.
      * intros b Hb. rewrite Hfr' by done. by apply mem_store_write_ne.
Qed.

(** [CompactFunc] leaves [collapse cmp] of the elements of [s] in the
    first cells of [s] and returns the view of these cells. *)
Lemma CompactFunc_collapses h s :
  valid h s ->
  exists r h',
    CompactFunc s cmp h = Ok r h'
    /\ r = Slice (base s) (off s) (length (collapse cmp (contents h s)))
                 (scap s)
    /\ contents h' r = collapse cmp (contents h s)
    /\ valid h' r /\ length h' = length h
    /\ (forall b, b <> base s -> mem h' b = mem h b)
    /\ ((slen s <= 1)%nat -> r = s /\ h' = h).
Proof.
  intros Hs. pose proof (length_contents h s Hs) as Hl.
  pose proof Hs as [Hcap Hn].
  unfold CompactFunc, len.
  destruct (contents h s) as [|x0 rest0] eqn:Hc; simpl in Hl.
  { rewrite <- Hl. simpl. exists s, h. unfold ret.
    split_and!; try done. destruct s; simpl in *; by subst. }
  destruct rest0 as [|x1 rest1]; simpl in Hl.
  { rewrite <- Hl. simpl. exists s, h. unfold ret.
    split_and!; try done. destruct s; simpl in *; by subst. }
  destruct (Z.eqb_spec (Z.of_nat (slen s)) 0) as [|_]; [lia|].
  destruct (Z.eqb_spec (Z.of_nat (slen s)) 1) as [|_]; [lia|].
  simpl orb. cbv iota. unfold for_range. unfold bind at 1.
  destruct (Compact_loop h s [x0] [] (x1 :: rest1) x0)
    as (h' & junk' & E & Hc' & Hs' & Hl' & Hfr'); [done..|].
  replace (Z.to_nat (Z.of_nat (slen s) - 1)) with (length (x1 :: rest1))
    by (simpl; lia).
  pose proof (length_collapse_after cmp x0 (x1 :: rest1)) as Hle.
  simpl length in Hle.
  eexists _, h'. split.
  { etrans; [exact (f_equal (fun res => match res with
                                        | Ok a h =>
                                            match a with
                                            | Next j => slice_to s j
                                            | Return r => ret r
                                            end h
                                        | Panic p => Panic p
                                        end) E)|].
    cbv beta iota. apply slice_to_ok. simpl length. lia. }
  change (collapse cmp (x0 :: x1 :: rest1))
    with ([x0] ++ collapse_after cmp x0 (x1 :: rest1)).
  split_and!.
  - by rewrite length_app.
  - rewrite contents_prefix by (simpl length; lia).
    rewrite Hc'. by rewrite take_app_length' by by rewrite length_app.
  - destruct Hs' as [Hcap' _]. split; simpl; [done|]. simpl length. lia.
  - done.
  - done.
  - lia.
Qed.

(** [Compact] is [CompactFunc] at the [==] of the element type. *)
Lemma Compact_CompactFunc s : Compact cmp s = CompactFunc s cmp.
Proof. reflexivity. Qed.

(** C6.  [Compact] works in place: it returns a view of the backing
    array of [s] (same array, offset and capacity), allocates nothing
    and leaves the other arrays as they were.  The elements of [s]
    split into consecutive runs, each a first element followed by
    elements [==] to it, and the result shows the first elements of
    the runs, in order.  In the result no element is [==] to the one
    before it; the result is a subsequence of [s]; and a slice of
    length 0 or 1 is returned as it is, with the store untouched. *)
Theorem Compact_collapses_runs h s :
  valid h s ->
  exists r h' (gs : list (T * list T)),
    Compact cmp s h = Ok r h'
    /\ base r = base s /\ off r = off s /\ scap r = scap s
    /\ length h' = length h
    /\ (forall b, b <> base s -> mem h' b = mem h b)
    /\ contents h s = concat (run_elements <$> gs)
    /\ Forall (fun g => Forall (fun z => cmp z g.1 = true) g.2) gs
    /\ contents h' r = gs.*1
    /\ (forall (i : nat) a b,
          contents h' r !! i = Some a -> contents h' r !! S i = Some b ->
          cmp b a = false)
    /\ contents h' r `sublist_of` contents h s
    /\ ((slen s <= 1)%nat -> r = s /\ h' = h).
Proof.
  intros Hs. rewrite Compact_CompactFunc.
  destruct (CompactFunc_collapses h s Hs)
    as (r & h' & E & -> & Hc & Hv & Hl & Hfr & Hsmall).
  destruct (collapse_runs cmp (contents h s)) as (gs & Hruns & Hall & Hgs).
  eexists _, h', gs. split; [exact E|]. rewrite Hc. split_and!; try done.
  - apply collapse_adjacent.
  - apply sublist_collapse.
Qed.

Lemma CompactFunc_keeps_first h s :
  valid h s ->
  exists r h',
    CompactFunc s cmp h = Ok r h'
    /\ len r <= len s
    /\ (0 < len s ->
        0 < len r /\ contents h' r !! 0%nat = contents h s !! 0%nat).
Proof.
  intros Hs. pose proof (length_contents h s Hs) as Hlen.
  destruct (CompactFunc_collapses h s Hs) as (r & h' & E & -> & Hc & _).
  eexists _, h'. split; [exact E|]. rewrite Hc. unfold len. simpl.
  pose proof (length_collapse cmp (contents h s)) as Hle.
  split; [lia|]. intros Hpos.
  destruct (contents h s) as [|x l]; simpl in *; [lia|]. split; [lia|done].
Qed.

End CompactProps.

(** C10.  On a slice that is not empty, [Compact] and [CompactFunc]
    (with any function [eq]) return a slice that is not empty and whose
    first element is [s[0]]; on every slice the length of what they
    return is at most [len(s)]. *)
Theorem Compact_keeps_first {T} (eqb eq : T -> T -> bool) h s :
  valid h s ->
  exists r h' r' h'',
    Compact eqb s h = Ok r h'
    /\ CompactFunc s eq h = Ok r' h''
    /\ len r <= len s /\ len r' <= len s
    /\ (0 < len s ->
        0 < len r /\ 0 < len r'
        /\ exists x, contents h s !! 0%nat = Some x
                     /\ contents h' r !! 0%nat = Some x
                     /\ contents h'' r' !! 0%nat = Some x).
Proof.
  intros Hs. pose proof (length_contents h s Hs) as Hlen.
  destruct (CompactFunc_keeps_first eqb h s Hs) as (r & h' & E & Hle & Hfst).
  destruct (CompactFunc_keeps_first eq h s Hs) as (r' & h'' & E' & Hle' & Hfst').
  exists r, h', r', h''. split_and!; try done.
  intros Hpos. destruct (Hfst Hpos) as [? Hx], (Hfst' Hpos) as [? Hx'].
  split_and!; try done.
  destruct (lookup_lt_is_Some_2 (contents h s) 0) as [x Hx0];
    [unfold len in Hpos; lia|].
  exists x. by rewrite Hx, Hx'.
Qed.

(** ** Grow *)

Section GrowProps.

Context {T : Type}.
Variable zero : T.
Variable growcap : nat -> nat -> nat.
Variable max_len : N.
Implicit Types (h : list (list T)) (s : slice).

(** What the language asks of [append]: the array it moves to holds
    the elements it is asked to hold. *)
Hypothesis growcap_enough : forall old need, (need <= growcap old need)%nat.

Lemma store_write_nil h b o : store_write h b o [] = h.
Proof.
  unfold store_write. apply list_alter_id. intros a. apply write_nil.
Qed.

(** An [append] within the capacity stays in the backing array. *)
Lemma append_in_place h s vs :
  (slen s + slen vs <= scap s)%nat ->
  exists h',
    append zero growcap s vs h
    = Ok (Slice (base s) (off s) (slen s + slen vs) (scap s)) h'
    /\ length h' = length h.
Proof.
  intros Hfit. unfold append.
  destruct (Nat.leb_spec (slen s + slen vs) (scap s)); [|lia].
  eexists. split; [done|]. apply length_store_write.
Qed.

(** The checks of the size pass within the limit, and [make] panics
    beyond it. *)
Lemma make_checked_ok h n c :
  c <= Z.of_N max_len -> make_checked zero max_len n c h = make zero n c h.
Proof.
  intros Hc. unfold make_checked.
  by destruct (Z.leb_spec c (Z.of_N max_len)); [|lia].
Qed.

Lemma make_checked_panics h n c :
  Z.of_N max_len < c -> make_checked zero max_len n c h = Panic LenOutOfRange.
Proof.
  intros Hc. unfold make_checked.
  by destruct (Z.leb_spec c (Z.of_N max_len)); [lia|].
Qed.

Lemma append_checked_ok h s vs :
  (slen s + slen vs <= scap s)%nat
  \/ Z.of_nat (growcap (scap s) (slen s + slen vs)) <= Z.of_N max_len ->
  append_checked zero growcap max_len s vs h = append zero growcap s vs h.
Proof.
  intros Hfit. unfold append_checked.
  destruct (Nat.leb_spec (slen s + slen vs) (scap s)); [done|].
  destruct (Z.leb_spec (Z.of_nat (growcap (scap s) (slen s + slen vs)))
              (Z.of_N max_len)); [done|lia].
Qed.

Lemma Grow_negative h s n :
  (slen s <= scap s)%nat -> n < 0 ->
  Grow zero growcap max_len s n h = Panic LenOutOfRange.
Proof.
  intros Hn Hneg. unfold Grow, bind, cap.
  rewrite slice_to_ok by lia. rewrite make_checked_ok by lia. unfold make.
  by destruct (Z.leb_spec 0 n); [lia|].
Qed.

Lemma Grow_beyond h s n :
  (slen s <= scap s)%nat -> Z.of_N max_len < n ->
  Grow zero growcap max_len s n h = Panic LenOutOfRange.
Proof.
  intros Hn Hbig. unfold Grow, bind, cap.
  rewrite slice_to_ok by lia. by rewrite make_checked_panics.
Qed.

Lemma Grow_grows h s n :
  valid h s -> 0 <= n ->
  (0 < n ->
   Z.of_nat (growcap (scap s) (scap s + Z.to_nat n)) <= Z.of_N max_len) ->
  exists r h',
    Grow zero growcap max_len s n h = Ok r h'
    /\ slen r = slen s
    /\ contents h' r = contents h s
    /\ (slen s + Z.to_nat n <= scap r)%nat
    /\ valid h' r.
Proof.
  intros Hs Hn Hfit. pose proof Hs as [Hcap Hlen].
  pose proof (length_contents h s Hs) as Hl.
  assert (Hmk : n <= Z.of_N max_len).
  { destruct (decide (n = 0)) as [->|]; [lia|].
    pose proof (growcap_enough (scap s) (scap s + Z.to_nat n)). lia. }
  unfold Grow, cap. unfold bind at 1.
  rewrite slice_to_ok by lia. unfold bind at 1.
  rewrite make_checked_ok by done. unfold make.
  destruct (Z.leb_spec 0 n); [|lia]. rewrite Z.leb_refl. simpl andb. cbv iota.
  set (k := Z.to_nat n).
  set (h0 := h ++ [replicate k zero]).
  set (a := Slice (base s) (off s) (scap s) (scap s)).
  set (z := Slice (length h) 0 k k).
  assert (Ha : valid h a) by (split; simpl; lia).
  assert (Ha0 : valid h0 a) by by apply valid_alloc.
  assert (Hs0 : valid h0 s) by by apply valid_alloc.
  assert (Hcs0 : contents h0 s = contents h s) by by apply contents_alloc.
  assert (Hz : contents h0 z = replicate k zero).
  { unfold contents, h0. simpl. rewrite mem_alloc_new, drop_0.
    apply take_ge. by rewrite length_replicate. }
  assert (Hap : (slen a + slen z <= scap a)%nat
                \/ Z.of_nat (growcap (scap a) (slen a + slen z))
                   <= Z.of_N max_len).
  { simpl. destruct (decide (n = 0)) as [Hn0|Hn0].
    - left. unfold k. rewrite Hn0. simpl. lia.
    - right. apply Hfit. lia. }
  unfold bind. rewrite append_checked_ok by done.
  unfold append. rewrite Hz. simpl slen. simpl scap.
  destruct (Nat.leb_spec (scap s + k) (scap s)) as [Hk|Hk].
  - assert (k = 0)%nat as Hk0 by lia. rewrite Hk0. simpl replicate.
    rewrite store_write_nil. unfold len.
    rewrite slice_to_ok by (simpl; lia). simpl.
    eexists _, _. split; [done|]. simpl. split_and!; try done. lia.
  - pose proof (growcap_enough (scap s) (scap s + k)) as Hg.
    unfold len. rewrite slice_to_ok by (simpl; lia). simpl.
    eexists _, _. split; [done|]. simpl. split_and!; try done.
    + unfold contents at 1. simpl. rewrite mem_alloc_new, drop_0.
      rewrite take_app_le
        by (rewrite length_contents by done; simpl; lia).
      rewrite <- Hcs0. unfold contents. simpl.
      by rewrite take_take, Nat.min_l by lia.
    + lia.
    + split; simpl; [|lia]. rewrite mem_alloc_new.
      rewrite !length_app, !length_replicate.
      rewrite length_contents by done. simpl. lia.
Qed.

(** C7.  For [n >= 0] within the limit of the run time ([n] is zero,
    or the capacity that [append] chooses for [cap(s) + n] elements is
    at most [max_len]), [Grow(s, n)] returns a slice with the length
    and the elements of [s] and a capacity of at least [len(s) + n], so
    that appending up to [n] elements to it stays in its backing array
    and allocates nothing.  It panics for [n < 0], and for [n] beyond
    [max_len]. *)
Theorem Grow_reserves_within_limit h s n :
  valid h s ->
  (0 <= n ->
   (0 < n ->
    Z.of_nat (growcap (scap s) (scap s + Z.to_nat n)) <= Z.of_N max_len) ->
   exists r h',
     Grow zero growcap max_len s n h = Ok r h'
     /\ len r = len s
     /\ contents h' r = contents h s
     /\ len s + n <= cap r
     /\ valid h' r
     /\ (forall vs (h2 : list (list T)),
           len vs <= n ->
           exists h3,
             append_checked zero growcap max_len r vs h2
             = Ok (Slice (base r) (off r) (slen r + slen vs) (scap r)) h3
             /\ length h3 = length h2))
  /\ (n < 0 -> exists p, Grow zero growcap max_len s n h = Panic p)
  /\ (Z.of_N max_len < n ->
      exists p, Grow zero growcap max_len s n h = Panic p).
Proof.
  intros Hs. split_and!.
  - intros Hn Hfit.
    destruct (Grow_grows h s n Hs Hn Hfit)
      as (r & h' & E & Hl & Hc & Hcap & Hv).
    exists r, h'. unfold len, cap. split_and!; try done; [lia..|].
    intros vs h2 Hvs. unfold len in Hvs.
    rewrite append_checked_ok by (left; lia).
    apply append_in_place. lia.
  - intros Hn. exists LenOutOfRange. apply Grow_negative; [|done].
    by destruct Hs.
  - intros Hn. exists LenOutOfRange. apply Grow_beyond; [|done].
    by destruct Hs.
Qed.

End GrowProps.

(** C7, where the claim as stated fails.  On a run time that allocates
    up to [2^45] elements (what the limit of [2^48] bytes of the 64-bit
    run time leaves for an [int] of 8 bytes), [Grow([]int{5}, 1<<62)]
    is a call with [n >= 0] that panics: it returns no slice. *)
Lemma Grow_beyond_limit_panics :
  valid [[5]] (Slice 0 0 1 1)
  /\ 0 <= 2 ^ 62
  /\ Grow 0 growcap_double (2 ^ 45)%N (Slice 0 0 1 1) (2 ^ 62) [[5]]
     = Panic LenOutOfRange
  /\ ~ (exists r h',
         Grow 0 growcap_double (2 ^ 45)%N (Slice 0 0 1 1) (2 ^ 62) [[5]]
         = Ok r h').
Proof.
  assert (E : Grow 0 growcap_double (2 ^ 45)%N (Slice 0 0 1 1) (2 ^ 62) [[5]]
              = Panic LenOutOfRange) by reflexivity.
  split_and!.
  - split; simpl; lia.
  - lia.
  - exact E.
  - intros (r & h' & E'). rewrite E in E'. discriminate.
Qed.

(** ** Equal and EqualFunc *)

Section EqualProps.

Context {T1 T2 : Type}.
Variable eq : T1 -> T2 -> bool.
Implicit Types (s : slice).

Lemma forallb_zip_lookup (l1 : list T1) (l2 : list T2) :
  forallb (fun q => eq q.1 q.2) (zip l1 l2) = true
  <-> forall (i : nat) x y, l1 !! i = Some x -> l2 !! i = Some y -> eq x y = true.
Proof.
  revert l2. induction l1 as [|a l1 IH]; intros [|b l2]; simpl;
    try by (split; [intros _ [|i] x y; done | done]).
  rewrite andb_true_iff, IH. split.
  - intros [Hab Hrest] [|i] x y; simpl.
    + by intros [= <-] [= <-].
    + apply Hrest.
  - intros Hall. split; [by apply (Hall 0%nat)|].
    intros i x y. apply (Hall (S i)).
Qed.

Lemma EqualFunc_loop (h1 : list (list T1)) (h2 : list (list T2)) s1 s2
    (k p : nat) :
  valid h1 s1 -> valid h2 s2 ->
  (p + k = slen s1)%nat -> (p + k = slen s2)%nat ->
  for_upto k (Z.of_nat p)
    (fun i (_ : unit) =>
       x <- index s1 i ;;
       y <- read_in h2 (index s2 i) ;;
       if negb (eq x y) then ret (Return false) else ret (Next tt)) tt h1
  = Ok (if forallb (fun q => eq q.1 q.2)
             (zip (drop p (contents h1 s1)) (drop p (contents h2 s2)))
        then Next tt else Return false) h1.
Proof.
  intros Hs1 Hs2.
  pose proof (length_contents h1 s1 Hs1) as Hl1.
  pose proof (length_contents h2 s2 Hs2) as Hl2.
  revert p. induction k as [|k IH]; intros p Hp1 Hp2.
  - simpl. by rewrite !drop_ge by lia.
  - destruct (lookup_lt_is_Some_2 (contents h1 s1) p) as [x Hx]; [lia|].
    destruct (lookup_lt_is_Some_2 (contents h2 s2) p) as [y Hy]; [lia|].
    simpl. unfold bind at 1 2 3.
    rewrite (index_ok h1 s1 p x) by (done || lia).
    unfold read_in. rewrite (index_ok h2 s2 p y) by (done || lia).
    rewrite (drop_S _ _ _ Hx), (drop_S _ _ _ Hy). simpl.
    destruct (eq x y); simpl; [|done].
    unfold ret at 1.
    replace (Z.of_nat p + 1) with (Z.of_nat (S p)) by lia.
    apply IH; lia.
Qed.

Lemma EqualFunc_runs (h1 : list (list T1)) (h2 : list (list T2)) s1 s2 :
  valid h1 s1 -> valid h2 s2 ->
  EqualFunc s1 s2 eq h2 h1
  = Ok (bool_decide (slen s1 = slen s2)
        && forallb (fun q => eq q.1 q.2)
             (zip (contents h1 s1) (contents h2 s2))) h1.
Proof.
  intros Hs1 Hs2. unfold EqualFunc, len.
  destruct (Z.eqb_spec (Z.of_nat (slen s1)) (Z.of_nat (slen s2))) as [E|E];
    simpl.
  - rewrite bool_decide_true by lia. simpl.
    unfold for_range. unfold bind at 1.
    rewrite Z.sub_0_r, Nat2Z.id. change 0 with (Z.of_nat 0).
    rewrite EqualFunc_loop by (done || lia). rewrite !drop_0.
    by destruct (forallb _ _).
  - by rewrite bool_decide_false by lia.
Qed.

(** X3.  [EqualFunc] returns, reads only, and is true exactly when the
    two slices have the same length and [eq] holds of the elements at
    every index. *)
Theorem EqualFunc_true_iff (h1 : list (list T1)) (h2 : list (list T2)) s1 s2 :
  valid h1 s1 -> valid h2 s2 ->
  exists b : bool,
    EqualFunc s1 s2 eq h2 h1 = Ok b h1
    /\ (b = true
        <-> len s1 = len s2
            /\ forall (i : nat) x y,
                 contents h1 s1 !! i = Some x -> contents h2 s2 !! i = Some y ->
                 eq x y = true).
Proof.
  intros Hs1 Hs2. rewrite EqualFunc_runs by done.
  eexists. split; [done|].
  rewrite andb_true_iff, bool_decide_eq_true, forallb_zip_lookup.
  unfold len. split; intros [? ?]; split; (done || lia).
Qed.

End EqualProps.

Section EqualSame.

Context {T : Type}.
Variable eqb : T -> T -> bool.
Implicit Types (h : list (list T)) (s : slice).

Lemma Equal_loop h s1 s2 (k p : nat) :
  valid h s1 -> valid h s2 ->
  (p + k = slen s1)%nat -> (p + k = slen s2)%nat ->
  for_upto k (Z.of_nat p)
    (fun i (_ : unit) =>
       x <- index s1 i ;;
       y <- index s2 i ;;
       if negb (eqb x y) then ret (Return false) else ret (Next tt)) tt h
  = Ok (if forallb (fun q => eqb q.1 q.2)
             (zip (drop p (contents h s1)) (drop p (contents h s2)))
        then Next tt else Return false) h.
Proof.
  intros Hs1 Hs2.
  pose proof (length_contents h s1 Hs1) as Hl1.
  pose proof (length_contents h s2 Hs2) as Hl2.
  revert p. induction k as [|k IH]; intros p Hp1 Hp2.
  - simpl. by rewrite !drop_ge by lia.
  - destruct (lookup_lt_is_Some_2 (contents h s1) p) as [x Hx]; [lia|].
    destruct (lookup_lt_is_Some_2 (contents h s2) p) as [y Hy]; [lia|].
    simpl. unfold bind at 1 2 3.
    rewrite (index_ok h s1 p x), (index_ok h s2 p y) by (done || lia).
    rewrite (drop_S _ _ _ Hx), (drop_S _ _ _ Hy). simpl.
    destruct (eqb x y); simpl; [|done].
    unfold ret at 1.
    replace (Z.of_nat p + 1) with (Z.of_nat (S p)) by lia.
    apply IH; lia.
Qed.

Lemma Equal_runs h s1 s2 :
  valid h s1 -> valid h s2 ->
  Equal eqb s1 s2 h
  = Ok (bool_decide (slen s1 = slen s2)
        && forallb (fun q => eqb q.1 q.2)
             (zip (contents h s1) (contents h s2))) h.
Proof.
  intros Hs1 Hs2. unfold Equal, len.
  destruct (Z.eqb_spec (Z.of_nat (slen s1)) (Z.of_nat (slen s2))) as [E|E];
    simpl.
  - rewrite bool_decide_true by lia. simpl.
    unfold for_range. unfold bind at 1.
    rewrite Z.sub_0_r, Nat2Z.id. change 0 with (Z.of_nat 0).
    rewrite Equal_loop by (done || lia). rewrite !drop_0.
    by destruct (forallb _ _).
  - by rewrite bool_decide_false by lia.
Qed.

(** X1.  [Equal] returns, reads only, and is true exactly when the two
    slices have the same length and the elements at every index are
    [==]. *)
Theorem Equal_true_iff h s1 s2 :
  valid h s1 -> valid h s2 ->
  exists b : bool,
    Equal eqb s1 s2 h = Ok b h
    /\ (b = true
        <-> len s1 = len s2
            /\ forall (i : nat) x y,
                 contents h s1 !! i = Some x -> contents h s2 !! i = Some y ->
                 eqb x y = true).
Proof.
  intros Hs1 Hs2. rewrite Equal_runs by done.
  eexists. split; [done|].
  rewrite andb_true_iff, bool_decide_eq_true, forallb_zip_lookup.
  unfold len. split; intros [? ?]; split; (done || lia).
Qed.

(** X2.  A slice is [Equal] to itself exactly when each of its elements
    is [==] to itself: one element that is not (a floating point NaN)
    makes [Equal(s, s)] false. *)
Theorem Equal_self_iff h s :
  valid h s ->
  exists b : bool,
    Equal eqb s s h = Ok b h
    /\ (b = true <-> forall x, x ∈ contents h s -> eqb x x = true).
Proof.
  intros Hs. rewrite Equal_runs by done.
  eexists. split; [done|].
  rewrite bool_decide_true by done. simpl. rewrite forallb_zip_lookup.
  split.
  - intros Hall x [i Hi]%list_elem_of_lookup. by apply (Hall i).
  - intros Hall i x y Hx Hy. assert (x = y) as -> by congruence.
    apply Hall. by apply list_elem_of_lookup; exists i.
Qed.

End EqualSame.

(** ** CompareFunc, and Compare through it *)

Section CompareFuncProps.

Context {T : Type}.
Implicit Types (h : list (list T)) (s : slice) (l : list T).

(** A read leaves the store as it is. *)
Lemma index_store h s i x h' : index s i h = Ok x h' -> h' = h.
Proof.
  unfold index. destruct ((0 <=? i) && (i <? len s)); [|done].
  destruct (contents h s !! Z.to_nat i); [|done]. by intros [= _ <-].
Qed.

Section Cmp.

Variable cmp : T -> T -> Z.

Lemma first_nonzero_Some l1 l2 v :
  first_nonzero cmp l1 l2 = Some v ->
  exists (q : nat) x y,
    l1 !! q = Some x /\ l2 !! q = Some y /\ cmp x y = v /\ v <> 0
    /\ forall (j : nat) x' y',
         (j < q)%nat -> l1 !! j = Some x' -> l2 !! j = Some y' ->
         cmp x' y' = 0.
Proof.
  revert l2. induction l1 as [|a l1 IH]; intros [|b l2]; simpl; try done.
  destruct (Z.eqb_spec (cmp a b) 0) as [E|E].
  - intros (q & x & y & Hx & Hy & Hv & Hne & Hlow)%IH.
    exists (S q), x, y. split_and!; try done.
    intros [|j] x' y' Hj; simpl.
    + by intros [= <-] [= <-].
    + apply Hlow. lia.
  - intros [= <-]. exists 0%nat, a, b. split_and!; try done.
    intros j x' y' Hj. lia.
Qed.

Lemma first_nonzero_None l1 l2 :
  first_nonzero cmp l1 l2 = None ->
  forall (j : nat) x y, l1 !! j = Some x -> l2 !! j = Some y -> cmp x y = 0.
Proof.
  revert l2. induction l1 as [|a l1 IH]; intros [|b l2]; simpl; try done.
  destruct (Z.eqb_spec (cmp a b) 0) as [E|E]; [|done].
  intros Hn [|j] x y; simpl.
  - by intros [= <-] [= <-].
  - by apply IH.
Qed.

Lemma CompareFunc_loop h s1 s2 (k p : nat) :
  valid h s1 -> valid h s2 ->
  (p + k = Nat.min (slen s1) (slen s2))%nat ->
  for_upto k (Z.of_nat p)
    (fun i (_ : unit) =>
       x <- index s1 i ;;
       y <- index s2 i ;;
       let v := cmp x y in
       if negb (v =? 0) then ret (Return v) else ret (Next tt)) tt h
  = Ok (match first_nonzero cmp (drop p (contents h s1))
                (drop p (contents h s2)) with
        | Some v => Return v
        | None => Next tt
        end) h.
Proof.
  intros Hs1 Hs2.
  pose proof (length_contents h s1 Hs1) as Hl1.
  pose proof (length_contents h s2 Hs2) as Hl2.
  revert p. induction k as [|k IH]; intros p Hp.
  - simpl. destruct (decide (slen s1 <= slen s2)%nat).
    + by rewrite (drop_ge (contents h s1)) by lia.
    + rewrite (drop_ge (contents h s2)) by lia.
      by destruct (drop p (contents h s1)).
  - destruct (lookup_lt_is_Some_2 (contents h s1) p) as [x Hx]; [lia|].
    destruct (lookup_lt_is_Some_2 (contents h s2) p) as [y Hy]; [lia|].
    simpl. unfold bind at 1 2 3.
    rewrite (index_ok h s1 p x), (index_ok h s2 p y) by (done || lia).
    rewrite (drop_S _ _ _ Hx), (drop_S _ _ _ Hy). simpl.
    destruct (cmp x y =? 0); simpl; [|done].
    unfold ret at 1.
    replace (Z.of_nat p + 1) with (Z.of_nat (S p)) by lia.
    apply IH; lia.
Qed.

Lemma CompareFunc_runs h s1 s2 :
  valid h s1 -> valid h s2 ->
  CompareFunc s1 s2 cmp h
  = Ok (match first_nonzero cmp (contents h s1) (contents h s2) with
        | Some v => v
        | None => by_length (len s1) (len s2)
        end) h.
Proof.
  intros Hs1 Hs2. unfold CompareFunc, for_range. unfold bind at 1.
  assert (Z.to_nat ((if len s1 >? len s2 then len s2 else len s1) - 0)
          = Nat.min (slen s1) (slen s2)) as ->.
  { unfold len.
    destruct (Z.gtb_spec (Z.of_nat (slen s1)) (Z.of_nat (slen s2))); lia. }
  change 0 with (Z.of_nat 0) at 1.
  rewrite CompareFunc_loop by (done || lia). rewrite !drop_0.
  destruct (first_nonzero _ _ _); [done|].
  unfold by_length, ret.
  by destruct (len s1 =? len s2), (len s1 <? len s2).
Qed.

(** X4.  [CompareFunc] returns and reads only.  When [cmp] is not zero
    on some pair of the common prefix, the result is what [cmp] returns
    on the first such pair, whatever number that is; when [cmp] is zero
    on every pair of the common prefix, the lengths decide: [0] when
    they are equal, [-1] when [s1] is the shorter, [+1] otherwise. *)
Theorem CompareFunc_first_nonzero h s1 s2 :
  valid h s1 -> valid h s2 ->
  exists r : Z,
    CompareFunc s1 s2 cmp h = Ok r h
    /\ ((exists (q : nat) x y,
           contents h s1 !! q = Some x /\ contents h s2 !! q = Some y
           /\ cmp x y <> 0
           /\ (forall (j : nat) x' y', (j < q)%nat ->
                 contents h s1 !! j = Some x' -> contents h s2 !! j = Some y' ->
                 cmp x' y' = 0)
           /\ r = cmp x y)
        \/ ((forall (j : nat) x' y',
               contents h s1 !! j = Some x' -> contents h s2 !! j = Some y' ->
               cmp x' y' = 0)
            /\ r = (if decide (len s1 = len s2) then 0
                    else if decide (len s1 < len s2) then -1 else 1))).
Proof.
  intros Hs1 Hs2. rewrite CompareFunc_runs by done.
  eexists. split; [done|].
  destruct (first_nonzero _ _ _) as [v|] eqn:E.
  - left. apply first_nonzero_Some in E
      as (q & x & y & Hx & Hy & Hv & Hne & Hlow).
    exists q, x, y. split_and!; try done. by rewrite Hv.
  - right. split; [by apply first_nonzero_None|].
    unfold by_length.
    destruct (Z.eqb_spec (len s1) (len s2)), (Z.ltb_spec (len s1) (len s2));
      repeat case_decide; (done || lia).
Qed.

End Cmp.

Variables eqb ltb : T -> T -> bool.

Lemma Compare_CompareFunc_loop s1 s2 (k : nat) i h :
  for_upto k i
    (fun i (_ : unit) =>
       x <- index s1 i ;;
       y <- index s2 i ;;
       if eqb x y then ret (Next tt)
       else
         x' <- index s1 i ;;
         y' <- index s2 i ;;
         if ltb x' y' then ret (Return (-1)) else ret (Return 1)) tt h
  = for_upto k i
      (fun i (_ : unit) =>
         x <- index s1 i ;;
         y <- index s2 i ;;
         let v := three_way eqb ltb x y in
         if negb (v =? 0) then ret (Return v) else ret (Next tt)) tt h.
Proof.
  revert i h. induction k as [|k IH]; intros i h; [done|].
  simpl. unfold bind.
  destruct (index s1 i h) as [x h'|p] eqn:E1; [|done].
  apply index_store in E1 as Hh. subst h'.
  destruct (index s2 i h) as [y h'|p] eqn:E2; [|done].
  apply index_store in E2 as Hh. subst h'.
  unfold three_way. destruct (eqb x y); simpl.
  - exact (IH _ _).
  - rewrite E1, E2. by destruct (ltb x y).
Qed.

Lemma Compare_CompareFunc s1 s2 h :
  Compare eqb ltb s1 s2 h = CompareFunc s1 s2 (three_way eqb ltb) h.
Proof.
  unfold Compare, CompareFunc, for_range.
  set (m := Z.to_nat _). unfold bind at 1.
  rewrite Compare_CompareFunc_loop. reflexivity.
Qed.

(** X5.  On all slices and stores, valid or not, [Compare] does what
    [CompareFunc] does with the comparison function that returns [0] on
    a pair of [==] elements, [-1] when the first is [<] the second and
    [+1] otherwise. *)
Theorem Compare_is_CompareFunc s1 s2 h :
  Compare eqb ltb s1 s2 h
  = CompareFunc s1 s2
      (fun x y => if eqb x y then 0 else if ltb x y then -1 else 1) h.
Proof. apply Compare_CompareFunc. Qed.

Lemma first_nonzero_three_way l1 l2 :
  match first_nonzero (three_way eqb ltb) l1 l2 with
  | Some v => (v = -1 \/ v = 1)
              /\ forallb (fun q => eqb q.1 q.2) (zip l1 l2) = false
  | None => forallb (fun q => eqb q.1 q.2) (zip l1 l2) = true
  end.
Proof.
  revert l2. induction l1 as [|a l1 IH]; intros [|b l2]; simpl; try done.
  unfold three_way at 1 3. destruct (eqb a b); simpl; [apply IH|].
  destruct (ltb a b); simpl; split; (done || auto).
Qed.

(** X6.  [Compare(s1, s2)] is [0] exactly when [Equal(s1, s2)] is
    true, whatever the [==] and [<] of the element type. *)
Theorem Compare_zero_iff_Equal h s1 s2 :
  valid h s1 -> valid h s2 ->
  exists (r : Z) (b : bool),
    Compare eqb ltb s1 s2 h = Ok r h
    /\ Equal eqb s1 s2 h = Ok b h
    /\ (r = 0 <-> b = true).
Proof.
  intros Hs1 Hs2.
  rewrite Compare_CompareFunc, CompareFunc_runs, Equal_runs by done.
  eexists _, _. split; [done|]. split; [done|].
  pose proof (first_nonzero_three_way (contents h s1) (contents h s2)) as Hf.
  rewrite andb_true_iff, bool_decide_eq_true.
  destruct (first_nonzero _ _ _) as [v|].
  - destruct Hf as [Hv Hf]. rewrite Hf. split; [lia|]. by intros [_ ?].
  - rewrite Hf. unfold by_length, len.
    destruct (Z.eqb_spec (Z.of_nat (slen s1)) (Z.of_nat (slen s2)));
      [|destruct (Z.ltb_spec (Z.of_nat (slen s1)) (Z.of_nat (slen s2)))];
      split; try done; try lia; intros [? _]; lia.
Qed.

(** On an element type whose [==] is symmetric and whose [<] orders any
    two elements that are not [==]. *)
Hypothesis eqb_sym : forall x y, eqb x y = eqb y x.
Hypothesis ltb_total : forall x y, eqb x y = false -> ltb y x = negb (ltb x y).

Lemma three_way_swap x y :
  three_way eqb ltb y x = - three_way eqb ltb x y.
Proof.
  unfold three_way. rewrite (eqb_sym y x).
  destruct (eqb x y) eqn:E; [done|].
  rewrite (ltb_total x y E). by destruct (ltb x y).
Qed.

Lemma first_nonzero_swap l1 l2 :
  first_nonzero (three_way eqb ltb) l2 l1
  = Z.opp <$> first_nonzero (three_way eqb ltb) l1 l2.
Proof.
  revert l2. induction l1 as [|a l1 IH]; intros [|b l2]; simpl; try done.
  rewrite (three_way_swap a b).
  destruct (Z.eqb_spec (three_way eqb ltb a b) 0) as [E|E].
  - rewrite E. simpl. apply IH.
  - by destruct (Z.eqb_spec (- three_way eqb ltb a b) 0); [lia|].
Qed.

(** X7.  On such an element type [Compare] is antisymmetric: swapping
    the two slices negates the result. *)
Theorem Compare_swap h s1 s2 :
  valid h s1 -> valid h s2 ->
  exists r : Z,
    Compare eqb ltb s1 s2 h = Ok r h
    /\ Compare eqb ltb s2 s1 h = Ok (- r) h.
Proof.
  intros Hs1 Hs2. rewrite !Compare_CompareFunc, !CompareFunc_runs by done.
  eexists. split; [done|]. f_equal.
  rewrite first_nonzero_swap.
  destruct (first_nonzero _ _ _) as [v|]; simpl; [done|].
  unfold by_length.
  destruct (Z.eqb_spec (len s1) (len s2)), (Z.eqb_spec (len s2) (len s1)),
    (Z.ltb_spec (len s1) (len s2)), (Z.ltb_spec (len s2) (len s1)); lia.
Qed.

End CompareFuncProps.

(** ** IndexFunc, and the index that Index returns *)

Section IndexFuncProps.

Context {T : Type}.
Implicit Types (h : list (list T)) (s : slice).

Lemma IndexFunc_loop (f : T -> bool) h s (k p : nat) :
  valid h s -> (p + k = slen s)%nat ->
  for_upto k (Z.of_nat p)
    (fun i (_ : unit) =>
       x <- index s i ;;
       if f x then ret (Return i) else ret (Next tt)) tt h
  = Ok (match list_find (fun x => f x = true) (drop p (contents h s)) with
        | Some (q, _) => Return (Z.of_nat (p + q))
        | None => Next tt
        end) h.
Proof.
  intros Hs. pose proof (length_contents h s Hs) as Hl.
  revert p. induction k as [|k IH]; intros p Hp.
  - simpl. by rewrite drop_ge by lia.
  - destruct (lookup_lt_is_Some_2 (contents h s) p) as [x Hx]; [lia|].
    simpl. unfold bind at 1 2.
    rewrite (index_ok h s p x) by (done || lia).
    rewrite (drop_S _ _ _ Hx). simpl.
    destruct (f x) eqn:E.
    + rewrite decide_True by done. simpl. by rewrite Nat.add_0_r.
    + rewrite decide_False by done.
      replace (Z.of_nat p + 1) with (Z.of_nat (S p)) by lia.
      unfold ret at 1. rewrite IH by lia.
      destruct (list_find _ (drop (S p) (contents h s))) as [[q y]|]; simpl;
        [|done].
      do 3 f_equal. lia.
Qed.

Lemma IndexFunc_finds (f : T -> bool) h s :
  valid h s ->
  exists n : Z,
    IndexFunc s f h = Ok n h
    /\ ((n = -1 /\ forall x, x ∈ contents h s -> f x = false)
        \/ exists (q : nat) x,
             n = Z.of_nat q /\ (q < slen s)%nat
             /\ contents h s !! q = Some x /\ f x = true
             /\ forall (j : nat) y,
                  (j < q)%nat -> contents h s !! j = Some y -> f y = false).
Proof.
  intros Hs. pose proof (length_contents h s Hs) as Hl.
  unfold IndexFunc, for_range. unfold bind at 1.
  rewrite Z.sub_0_r. unfold len. rewrite Nat2Z.id.
  change 0 with (Z.of_nat 0).
  rewrite IndexFunc_loop by (done || lia). rewrite drop_0.
  destruct (list_find _ _) as [[q x]|] eqn:E.
  - apply list_find_Some in E as (Hx & Hfx & Hlow).
    eexists. split; [done|]. right. exists q, x.
    split_and!; try done.
    + apply lookup_lt_Some in Hx. lia.
    + intros j y Hj Hy. specialize (Hlow j y Hy Hj).
      by destruct (f y).
  - apply list_find_None in E.
    eexists. split; [done|]. left. split; [done|].
    intros x Hx. rewrite Forall_forall in E. specialize (E x Hx).
    by destruct (f x).
Qed.

(** X8.  [IndexFunc] returns and reads only.  It returns [-1] when [f]
    is false of every element, and otherwise the first index at which
    [f] is true: an index of the slice, with [f] false at every index
    before it. *)
Theorem IndexFunc_first (f : T -> bool) h s :
  valid h s ->
  exists n : Z,
    IndexFunc s f h = Ok n h
    /\ ((n = -1 /\ forall x, x ∈ contents h s -> f x = false)
        \/ exists (q : nat) x,
             n = Z.of_nat q /\ (q < slen s)%nat
             /\ contents h s !! q = Some x /\ f x = true
             /\ forall (j : nat) y,
                  (j < q)%nat -> contents h s !! j = Some y -> f y = false).
Proof. apply IndexFunc_finds. Qed.

(** X9.  [Index] returns and reads only.  It returns [-1] when no
    element is [==] to [v], and otherwise the index of the first
    occurrence of [v]: an index of the slice whose element is [==] to
    [v], with no such element before it. *)
Theorem Index_first (eqb : T -> T -> bool) h s (v : T) :
  valid h s ->
  exists n : Z,
    Index eqb s v h = Ok n h
    /\ ((n = -1 /\ forall x, x ∈ contents h s -> eqb x v = false)
        \/ exists (q : nat) x,
             n = Z.of_nat q /\ (q < slen s)%nat
             /\ contents h s !! q = Some x /\ eqb x v = true
             /\ forall (j : nat) y,
                  (j < q)%nat -> contents h s !! j = Some y ->
                  eqb y v = false).
Proof. intros Hs. apply (IndexFunc_finds (fun x => eqb x v) h s Hs). Qed.

End IndexFuncProps.

(** ** Clip and Clone *)

Section ClipCloneProps.

Context {T : Type}.
Variable zero : T.
Variable growcap : nat -> nat -> nat.
Implicit Types (h : list (list T)) (s : slice).

Lemma Clip_runs h s :
  (slen s <= scap s)%nat ->
  Clip s h = Ok (Slice (base s) (off s) (slen s) (slen s)) h.
Proof.
  intros Hn. unfold Clip, slice_expr3, len, cap.
  destruct (Z.leb_spec 0 (Z.of_nat (slen s))); [|lia].
  destruct (Z.leb_spec (Z.of_nat (slen s)) (Z.of_nat (scap s))); [|lia].
  rewrite !Z.leb_refl. cbn [andb]. unfold ret.
  change (Z.to_nat 0) with 0%nat.
  by rewrite Z.sub_0_r, Nat2Z.id, Nat.add_0_r.
Qed.

(** An [append] beyond the capacity moves to a fresh array and leaves
    the arrays of the store as they were. *)
Lemma append_moves h s vs :
  (scap s < slen s + slen vs)%nat ->
  exists r h',
    append zero growcap s vs h = Ok r h'
    /\ base r = length h /\ length h' = S (length h)
    /\ forall b, (b < length h)%nat -> mem h' b = mem h b.
Proof.
  intros Hfit. unfold append.
  destruct (Nat.leb_spec (slen s + slen vs) (scap s)); [lia|].
  eexists _, _. split; [done|]. simpl. split_and!; [done| |].
  - rewrite length_app. simpl. lia.
  - intros b Hb. by apply mem_alloc_old.
Qed.

(** X10.  [Clip] returns the view of [s] with the capacity cut down to
    the length: same array, offset, length and elements, and the store
    is as it was.  Appending one or more elements to the result always
    moves to a fresh array, so it never writes the cells after [s]. *)
Theorem Clip_cuts_capacity h s :
  valid h s ->
  exists r,
    Clip s h = Ok r h
    /\ base r = base s /\ off r = off s /\ len r = len s /\ cap r = len s
    /\ contents h r = contents h s
    /\ forall vs (h2 : list (list T)),
         0 < len vs ->
         exists r' h3,
           append zero growcap r vs h2 = Ok r' h3
           /\ base r' = length h2 /\ length h3 = S (length h2)
           /\ forall b, (b < length h2)%nat -> mem h3 b = mem h2 b.
Proof.
  intros [Hc Hn]. rewrite Clip_runs by done.
  eexists. split; [done|]. split_and!; try done.
  intros vs h2 Hvs. apply append_moves. unfold len in Hvs. simpl. lia.
Qed.

Lemma Clone_runs h s :
  valid h s ->
  Clone zero s h
  = Ok (Slice (length h) 0 (slen s) (scap s))
       (h ++ [contents h s ++ replicate (scap s - slen s) zero]).
Proof.
  intros Hs. pose proof Hs as [Hc Hn].
  pose proof (length_contents h s Hs) as Hl.
  unfold Clone, bind, make, len, cap.
  destruct (Z.leb_spec 0 (Z.of_nat (slen s))) as [_|]; [|lia].
  destruct (Z.leb_spec (Z.of_nat (slen s)) (Z.of_nat (scap s))) as [_|]; [|lia].
  simpl. rewrite !Nat2Z.id. unfold copy, ret. simpl.
  rewrite Nat.min_id, take_contents, contents_alloc by (done || lia).
  f_equal. unfold store_write.
  rewrite <- (Nat.add_0_r (length h)) at 1.
  rewrite alter_app_r. simpl. do 2 f_equal.
  unfold write. simpl. rewrite Hl. f_equal.
  rewrite drop_replicate. done.
Qed.

(** X11.  [Clone] returns a slice in a fresh array, with the length,
    the capacity and the elements of [s]; the cells of the new array
    after the elements hold zero values, not what the array of [s]
    holds there; and the arrays of the store are as they were. *)
Theorem Clone_fresh_copy h s :
  valid h s ->
  exists r h',
    Clone zero s h = Ok r h'
    /\ base r = length h /\ off r = 0%nat
    /\ len r = len s /\ cap r = cap s
    /\ contents h' r = contents h s
    /\ mem h' (base r) = contents h s ++ replicate (scap s - slen s) zero
    /\ length h' = S (length h)
    /\ forall b, (b < length h)%nat -> mem h' b = mem h b.
Proof.
  intros Hs. pose proof (length_contents h s Hs) as Hl.
  rewrite Clone_runs by done. eexists _, _. split; [done|]. simpl.
  split_and!; try done.
  - unfold contents. simpl. rewrite mem_alloc_new, drop_0.
    by rewrite take_app_length' by done.
  - apply mem_alloc_new.
  - rewrite length_app. simpl. lia.
  - intros b Hb. by apply mem_alloc_old.
Qed.

(** X12.  A clone is [Equal] to the slice it was made from exactly when
    every element of the slice is [==] to itself. *)
Theorem Equal_Clone (eqb : T -> T -> bool) h s :
  valid h s ->
  exists (b : bool) h',
    (c <- Clone zero s ;; Equal eqb c s) h = Ok b h'
    /\ (b = true <-> forall x, x ∈ contents h s -> eqb x x = true).
Proof.
  intros Hs.
  destruct (Clone_copies zero h s Hs) as (h' & E & Hc & Hv & _ & Hold).
  destruct (Hold s Hs) as [Hs' Hcs'].
  unfold bind. rewrite E. rewrite Equal_runs by done. simpl.
  eexists _, _. split; [done|].
  rewrite bool_decide_true by done. simpl.
  rewrite Hc, Hcs', forallb_zip_lookup. split.
  - intros Hall x [i Hi]%list_elem_of_lookup. by apply (Hall i).
  - intros Hall i x y Hx Hy. assert (x = y) as -> by congruence.
    apply Hall. by apply list_elem_of_lookup; exists i.
Qed.

End ClipCloneProps.

(** ** More on Insert and Delete *)

Section InsertDeleteMore.

Context {T : Type}.
Variable zero : T.
Implicit Types (h : list (list T)) (s vs : slice).





(** X18.  Deleting a suffix, [Delete(s, i, len(s))], moves nothing: it
    returns [s[:i]] and the store is as it was. *)
Theorem Delete_suffix h s i :
  valid h s -> 0 <= i <= len s ->
  Delete s i (len s) h
  = Ok (Slice (base s) (off s) (Z.to_nat i) (scap s)) h.
Proof.
  intros Hs Hi. pose proof (length_contents h s Hs) as Hl.
  rewrite Delete_in_range by (done || lia).
  unfold len in *. rewrite Nat2Z.id.
  rewrite drop_ge by lia. f_equal.
  - f_equal. lia.
  - unfold store_write. apply list_alter_id. intros a. apply write_nil.
Qed.

End InsertDeleteMore.

(** ** More on Compact *)

Section CompactMore.

Context {T : Type}.
Variable cmp : T -> T -> bool.
Implicit Types (h : list (list T)) (s : slice) (l : list T).

Lemma collapse_after_fixed y l :
  (forall (i : nat) a b,
     (y :: l) !! i = Some a -> (y :: l) !! S i = Some b -> cmp b a = false) ->
  collapse_after cmp y l = l.
Proof.
  revert y. induction l as [|x l IH]; intros y Hadj; simpl; [done|].
  rewrite (Hadj 0%nat y x) by done. f_equal.
  apply IH. intros i a b. apply (Hadj (S i)).
Qed.

Lemma collapse_fixed l :
  (forall (i : nat) a b,
     l !! i = Some a -> l !! S i = Some b -> cmp b a = false) ->
  collapse cmp l = l.
Proof.
  destruct l as [|x l]; [done|]. intros Hadj. simpl. f_equal.
  by apply collapse_after_fixed.
Qed.

Lemma collapse_idemp l : collapse cmp (collapse cmp l) = collapse cmp l.
Proof. apply collapse_fixed, collapse_adjacent. Qed.

(** X19.  On a slice in which no element is [==] to the one before it,
    [Compact] returns the slice it was given, and it shows the elements
    it showed. *)
Theorem Compact_nothing_to_do h s :
  valid h s ->
  (forall (i : nat) a b,
     contents h s !! i = Some a -> contents h s !! S i = Some b ->
     cmp b a = false) ->
  exists h',
    Compact cmp s h = Ok s h' /\ contents h' s = contents h s.
Proof.
  intros Hs Hadj. pose proof (length_contents h s Hs) as Hl.
  rewrite Compact_CompactFunc.
  destruct (CompactFunc_collapses cmp h s Hs) as (r & h' & E & -> & Hc & _).
  rewrite collapse_fixed, Hl in * by done.
  exists h'. split; [|by destruct s].
  rewrite E. f_equal. by destruct s.
Qed.

(** X20.  [Compact] is idempotent: on the slice that [Compact] returns,
    a second [Compact] returns that slice again, showing the same
    elements. *)
Theorem Compact_idempotent h s :
  valid h s ->
  exists r h' h'',
    Compact cmp s h = Ok r h'
    /\ Compact cmp r h' = Ok r h''
    /\ contents h'' r = contents h' r.
Proof.
  intros Hs. rewrite !Compact_CompactFunc.
  destruct (CompactFunc_collapses cmp h s Hs)
    as (r & h' & E & Hr & Hc & Hv & _).
  pose proof (length_contents h' r Hv) as Hl.
  destruct (CompactFunc_collapses cmp h' r Hv)
    as (r' & h'' & E' & Hr' & Hc' & _).
  rewrite Hc, collapse_idemp in Hr', Hc'. rewrite <- Hc, Hl in Hr'.
  assert (r' = r) as -> by (rewrite Hr'; by destruct r).
  exists r, h', h''. rewrite Compact_CompactFunc. by rewrite Hc.
Qed.

End CompactMore.

(** ** More on Grow *)

Section GrowMore.

Context {T : Type}.
Variable zero : T.
Variable growcap : nat -> nat -> nat.
Variable max_len : N.
Implicit Types (h : list (list T)) (s : slice).

Lemma Grow_runs h s (k : nat) :
  (slen s <= scap s)%nat ->
  Z.of_nat k <= Z.of_N max_len ->
  Grow zero growcap max_len s (Z.of_nat k) h
  = (r <- append_checked zero growcap max_len
            (Slice (base s) (off s) (scap s) (scap s))
            (Slice (length h) 0 k k) ;;
     slice_to r (len s)) (h ++ [replicate k zero]).
Proof.
  intros Hn Hk. unfold Grow, cap. unfold bind at 1.
  rewrite slice_to_ok by lia. unfold bind at 1.
  rewrite make_checked_ok by done. unfold make.
  destruct (Z.leb_spec 0 (Z.of_nat k)); [|lia]. rewrite Z.leb_refl.
  cbn [andb]. by rewrite Nat2Z.id.
Qed.

(** X21.  [Grow(s, 0)] returns the slice it was given, and the arrays
    of the store are as they were. *)
Theorem Grow_zero h s :
  valid h s ->
  exists h',
    Grow zero growcap max_len s 0 h = Ok s h'
    /\ contents h' s = contents h s
    /\ forall b, (b < length h)%nat -> mem h' b = mem h b.
Proof.
  intros Hs. pose proof Hs as [Hc Hn].
  change 0 with (Z.of_nat 0). rewrite Grow_runs by (done || lia).
  unfold bind. rewrite append_checked_ok by (left; simpl; lia).
  unfold append. simpl slen. simpl scap.
  rewrite Nat.add_0_r.
  destruct (Nat.leb_spec (scap s) (scap s)); [|lia].
  unfold len. rewrite slice_to_ok by (simpl; lia). simpl.
  unfold contents at 1. simpl. rewrite mem_alloc_new. simpl.
  rewrite store_write_nil.
  exists (h ++ [[]]). split_and!.
  - by destruct s.
  - by apply contents_alloc.
  - intros b Hb. by apply mem_alloc_old.
Qed.

Hypothesis growcap_enough : forall old need, (need <= growcap old need)%nat.

(** X22.  For [n > 0] within the limit of the run time (the capacity
    that [append] chooses for [cap(s) + n] elements is at most
    [max_len]), [Grow] always moves to a fresh array, also when the
    capacity of [s] already holds [n] more elements: the result has
    the elements of [s] in an array allocated by the call, with a
    capacity of at least [cap(s) + n], its first [cap(s)] cells hold
    what the cells of [s] up to its capacity held, and the arrays of
    the store are as they were. *)
Theorem Grow_moves h s n :
  valid h s -> 0 < n ->
  Z.of_nat (growcap (scap s) (scap s + Z.to_nat n)) <= Z.of_N max_len ->
  exists r h',
    Grow zero growcap max_len s n h = Ok r h'
    /\ (length h <= base r)%nat /\ off r = 0%nat
    /\ len r = len s /\ cap s + n <= cap r
    /\ contents h' r = contents h s
    /\ take (scap s) (mem h' (base r))
       = take (scap s) (drop (off s) (mem h (base s)))
    /\ forall b, (b < length h)%nat -> mem h' b = mem h b.
Proof.
  intros Hs Hn Hfit. pose proof Hs as [Hc Hle].
  pose proof (growcap_enough (scap s) (scap s + Z.to_nat n)) as Hg0.
  rewrite <- (Z2Nat.id n) by lia.
  set (k := Z.to_nat n) in *.
  assert (Hk : (0 < k)%nat) by lia.
  rewrite Grow_runs by (done || lia).
  set (h0 := h ++ [replicate k zero]).
  set (a := Slice (base s) (off s) (scap s) (scap s)).
  assert (Ha : valid h a) by (split; simpl; lia).
  assert (Ha0 : contents h0 a = contents h a) by by apply contents_alloc.
  pose proof (length_contents h a Ha) as Hla. simpl in Hla.
  pose proof (growcap_enough (scap s) (scap s + k)) as Hg.
  unfold bind. rewrite append_checked_ok by (right; exact Hfit).
  unfold append. simpl slen. simpl scap.
  destruct (Nat.leb_spec (scap s + k) (scap s)); [lia|].
  unfold len. rewrite slice_to_ok by (simpl; lia). simpl.
  eexists _, _. split; [done|]. simpl.
  rewrite mem_alloc_new, Ha0.
  assert (Hpre : take (scap s) (contents h a ++ contents h0
                   (Slice (length h) 0 k k)
                   ++ replicate (growcap (scap s) (scap s + k) - (scap s + k))
                        zero)
                 = contents h a)
    by by rewrite take_app_length' by done.
  split_and!.
  - unfold h0. rewrite length_app. simpl. lia.
  - done.
  - done.
  - unfold cap. simpl. lia.
  - unfold contents at 1. simpl. rewrite mem_alloc_new, drop_0.
    rewrite take_app_le by lia.
    unfold contents, a. simpl. by rewrite take_take, Nat.min_l by lia.
  - rewrite Hpre. unfold contents, a. done.
  - intros b Hb. unfold h0.
    rewrite mem_alloc_old by (rewrite length_app; simpl; lia).
    by apply mem_alloc_old.
Qed.

End GrowMore.

(** ** Contains, Equal in both directions, and work on a clone *)

Section ComposeProps.

Context {T : Type}.
Variable zero : T.
Variable eqb : T -> T -> bool.
Implicit Types (h : list (list T)) (s : slice).

(** X23.  [Contains] returns, reads only, and is true exactly when some
    element of the slice is [==] to [v]. *)
Theorem Contains_true_iff h s (v : T) :
  valid h s ->
  exists b : bool,
    Contains eqb s v h = Ok b h
    /\ (b = true <-> exists x, x ∈ contents h s /\ eqb x v = true).
Proof.
  intros Hs. rewrite Contains_finds by done.
  eexists. split; [done|].
  destruct (list_find _ _) as [[q x]|] eqn:E.
  - apply list_find_Some in E as (Hx & Hfx & _).
    split; [|done]. intros _. exists x. split; [|done].
    apply list_elem_of_lookup. by exists q.
  - apply list_find_None in E. rewrite Forall_forall in E.
    split; [done|]. intros (x & Hx & Hv). by destruct (E x Hx).
Qed.

Lemma forallb_zip_swap (l1 l2 : list T) :
  (forall x y, eqb x y = eqb y x) ->
  forallb (fun q => eqb q.1 q.2) (zip l2 l1)
  = forallb (fun q => eqb q.1 q.2) (zip l1 l2).
Proof.
  intros Hsym. revert l2.
  induction l1 as [|a l1 IH]; intros [|b l2]; simpl; try done.
  by rewrite IH, (Hsym b a).
Qed.

(** X24.  When the [==] of the element type is symmetric, [Equal] is:
    [Equal(s2, s1)] returns what [Equal(s1, s2)] returns. *)
Theorem Equal_swap h s1 s2 :
  (forall x y, eqb x y = eqb y x) ->
  valid h s1 -> valid h s2 ->
  exists b : bool,
    Equal eqb s1 s2 h = Ok b h /\ Equal eqb s2 s1 h = Ok b h.
Proof.
  intros Hsym Hs1 Hs2. rewrite !Equal_runs by done.
  eexists. split; [done|]. f_equal.
  rewrite forallb_zip_swap by done. f_equal.
  apply bool_decide_ext. split; intros ?; done.
Qed.

(** X25.  Deleting from a clone leaves the slice that was cloned alone:
    [Delete(Clone(s), i, j)] returns [s[0:i] ++ s[j:]] while [s] shows
    the elements it showed and the arrays the store had are as they
    were. *)
Theorem Delete_on_Clone h s i j :
  valid h s -> 0 <= i <= j -> j <= len s ->
  exists r h',
    (c <- Clone zero s ;; Delete c i j) h = Ok r h'
    /\ contents h' r
       = take (Z.to_nat i) (contents h s) ++ drop (Z.to_nat j) (contents h s)
    /\ contents h' s = contents h s
    /\ forall b, (b < length h)%nat -> mem h' b = mem h b.
Proof.
  intros Hs Hij Hj.
  destruct (Clone_copies zero h s Hs) as (h1 & E1 & Hc1 & Hv1 & Hl1 & Hold).
  set (c := Slice (length h) 0 (slen s) (scap s)) in *.
  destruct (Delete_shifts_tail h1 c i j)
    as (r & h' & E2 & _ & _ & _ & _ & Hc2 & _ & Hfr & _); [done..|].
  assert (Hmem1 : forall b, (b < length h)%nat -> mem h1 b = mem h b).
  { intros b Hb. rewrite Clone_runs in E1 by done.
    injection E1 as <-. by apply mem_alloc_old. }
  assert (Hmem : forall b, (b < length h)%nat -> mem h' b = mem h b).
  { intros b Hb. rewrite Hfr by (simpl; lia). by apply Hmem1. }
  exists r, h'. split_and!.
  - unfold bind. by rewrite E1.
  - by rewrite Hc2, Hc1.
  - unfold contents. destruct (decide (base s < length h)%nat).
    + by rewrite Hmem.
    + destruct Hs as [Hcap Hn]. rewrite mem_dangling in Hcap by lia.
      simpl in Hcap. replace (slen s) with 0%nat by lia. by rewrite !take_0.
  - done.
Qed.

(** X26.  Compacting a clone leaves the slice that was cloned alone:
    [Compact(Clone(s))] shows the elements that [Compact(s)] shows,
    while [s] shows the elements it showed and the arrays the store had
    are as they were. *)
Theorem Compact_on_Clone h s :
  valid h s ->
  exists r h',
    (c <- Clone zero s ;; Compact eqb c) h = Ok r h'
    /\ (exists r0 h0,
          Compact eqb s h = Ok r0 h0 /\ contents h0 r0 = contents h' r)
    /\ contents h' s = contents h s
    /\ forall b, (b < length h)%nat -> mem h' b = mem h b.
Proof.
  intros Hs.
  destruct (CompactFunc_collapses eqb h s Hs) as (r0 & h0 & E0 & _ & Hc0 & _).
  destruct (Clone_copies zero h s Hs) as (h1 & E1 & Hc1 & Hv1 & Hl1 & Hold).
  set (c := Slice (length h) 0 (slen s) (scap s)) in *.
  destruct (CompactFunc_collapses eqb h1 c Hv1)
    as (r & h' & E2 & _ & Hc2 & _ & _ & Hfr & _).
  assert (Hmem1 : forall b, (b < length h)%nat -> mem h1 b = mem h b).
  { intros b Hb. rewrite Clone_runs in E1 by done.
    injection E1 as <-. by apply mem_alloc_old. }
  assert (Hmem : forall b, (b < length h)%nat -> mem h' b = mem h b).
  { intros b Hb. rewrite Hfr by (simpl; lia). by apply Hmem1. }
  exists r, h'. split_and!.
  - unfold bind. rewrite E1. by rewrite Compact_CompactFunc.
  - exists r0, h0. rewrite Compact_CompactFunc. by rewrite Hc0, Hc2, Hc1.
  - unfold contents. destruct (decide (base s < length h)%nat).
    + by rewrite Hmem.
    + destruct Hs as [Hcap Hn]. rewrite mem_dangling in Hcap by lia.
      simpl in Hcap. replace (slen s) with 0%nat by lia. by rewrite !take_0.
  - done.
Qed.

End ComposeProps.

(** ** The theorems at concrete slices *)

Lemma Delete_removes_range_witness :
  valid [[1; 2; 3; 4; 5]] (Slice 0 0 5 5)
  /\ 0 <= 1 <= 3 /\ 3 <= len (Slice 0 0 5 5)
  /\ exists r h',
       Delete (Slice 0 0 5 5) 1 3 [[1; 2; 3; 4; 5]] = Ok r h'
       /\ contents h' r = [1; 4; 5] /\ len r = 3.
Proof.
  assert (Hv : valid [[1; 2; 3; 4; 5]] (Slice 0 0 5 5)) by (split; simpl; lia).
  assert (Hij : 0 <= 1 <= 3) by lia.
  assert (Hj : 3 <= len (Slice 0 0 5 5)) by (unfold len; simpl; lia).
  split; [exact Hv|]. split; [exact Hij|]. split; [exact Hj|].
  destruct (Delete_removes_range _ _ _ _ Hv Hij Hj)
    as (r & h' & E & _ & _ & _ & Hl & Hc & _).
  exists r, h'. split; [exact E|]. split; [exact Hc|exact Hl].
Defined.

Lemma Delete_empty_range_witness :
  valid [[1; 2; 3]] (Slice 0 0 3 3) /\ 0 <= 2 <= len (Slice 0 0 3 3)
  /\ Delete (Slice 0 0 3 3) 2 2 [[1; 2; 3]] = Ok (Slice 0 0 3 3) [[1; 2; 3]].
Proof.
  assert (Hv : valid [[1; 2; 3]] (Slice 0 0 3 3)) by (split; simpl; lia).
  assert (Hi : 0 <= 2 <= len (Slice 0 0 3 3)) by (unfold len; simpl; lia).
  split; [exact Hv|]. split; [exact Hi|].
  exact (Delete_empty_range _ _ _ Hv Hi).
Defined.


Lemma Compare_lexicographic_witness :
  valid [[1; 3]; [1; 2; 3]] (Slice 0 0 2 2)
  /\ valid [[1; 3]; [1; 2; 3]] (Slice 1 0 3 3)
  /\ exists r,
       Compare Z.eqb Z.ltb (Slice 0 0 2 2) (Slice 1 0 3 3) [[1; 3]; [1; 2; 3]]
       = Ok r [[1; 3]; [1; 2; 3]]
       /\ r = 1.
Proof.
  assert (H1 : valid [[1; 3]; [1; 2; 3]] (Slice 0 0 2 2))
    by (split; simpl; lia).
  assert (H2 : valid [[1; 3]; [1; 2; 3]] (Slice 1 0 3 3))
    by (split; simpl; lia).
  split; [exact H1|]. split; [exact H2|].
  destruct (Compare_lexicographic Z.eqb Z.ltb _ _ _ H1 H2) as (r & E & _).
  exists r. split; [exact E|].
  assert (Ok (T:=Z) r [[1; 3]; [1; 2; 3]] = Ok 1 [[1; 3]; [1; 2; 3]]) as [= ->];
    [by rewrite <- E|reflexivity].
Defined.

Lemma Compact_collapses_runs_witness :
  valid [[1; 1; 2; 2; 2; 3; 1]] (Slice 0 0 7 7)
  /\ exists r h',
       Compact Z.eqb (Slice 0 0 7 7) [[1; 1; 2; 2; 2; 3; 1]] = Ok r h'
       /\ contents h' r = [1; 2; 3; 1]
       /\ contents h' r `sublist_of` [1; 1; 2; 2; 2; 3; 1]
       /\ base r = 0%nat /\ length h' = 1%nat.
Proof.
  assert (Hv : valid [[1; 1; 2; 2; 2; 3; 1]] (Slice 0 0 7 7))
    by (split; simpl; lia).
  split; [exact Hv|].
  destruct (Compact_collapses_runs Z.eqb _ _ Hv)
    as (r & h' & gs & E & Hb & _ & _ & Hl & _ & _ & _ & _ & _ & Hsub & _).
  exists r, h'. split; [exact E|].
  split; [|split; [exact Hsub|split; [exact Hb|exact Hl]]].
  assert (Ok r h' = Ok (Slice 0 0 4 7) [[1; 2; 3; 1; 2; 3; 1]]) as [= -> ->];
    [by rewrite <- E|reflexivity].
Defined.

Lemma Grow_reserves_within_limit_witness :
  (forall old need, (need <= growcap_double old need)%nat)
  /\ valid [[1; 2; 7]] (Slice 0 0 2 3)
  /\ 0 <= 4
  /\ (0 < 4 ->
      Z.of_nat (growcap_double 3 (3 + Z.to_nat 4)) <= Z.of_N (2 ^ 45))
  /\ (exists r h',
        Grow 0 growcap_double (2 ^ 45)%N (Slice 0 0 2 3) 4 [[1; 2; 7]]
        = Ok r h'
        /\ contents h' r = [1; 2] /\ len (Slice 0 0 2 3) + 4 <= cap r)
  /\ -1 < 0
  /\ (exists p,
        Grow 0 growcap_double (2 ^ 45)%N (Slice 0 0 2 3) (-1) [[1; 2; 7]]
        = Panic p)
  /\ Z.of_N (2 ^ 45) < 2 ^ 62
  /\ exists p,
       Grow 0 growcap_double (2 ^ 45)%N (Slice 0 0 2 3) (2 ^ 62) [[1; 2; 7]]
       = Panic p.
Proof.
  assert (Hg : forall old need, (need <= growcap_double old need)%nat)
    by (intros old need; unfold growcap_double; lia).
  assert (Hv : valid [[1; 2; 7]] (Slice 0 0 2 3)) by (split; simpl; lia).
  assert (Hn : 0 <= 4) by lia.
  assert (Hf : 0 < 4 ->
               Z.of_nat (growcap_double 3 (3 + Z.to_nat 4)) <= Z.of_N (2 ^ 45))
    by (intros _; vm_compute; discriminate).
  assert (Hm : -1 < 0) by lia.
  assert (Hb : Z.of_N (2 ^ 45) < 2 ^ 62) by reflexivity.
  split; [exact Hg|]. split; [exact Hv|]. split; [exact Hn|].
  split; [exact Hf|].
  split.
  - destruct (Grow_reserves_within_limit 0 growcap_double (2 ^ 45)%N Hg _ _ 4 Hv)
      as [Hpos _].
    destruct (Hpos Hn Hf) as (r & h' & E & _ & Hc & Hcap & _).
    exists r, h'. split; [exact E|]. split; [exact Hc|exact Hcap].
  - split; [exact Hm|]. split; [|split; [exact Hb|]].
    + destruct (Grow_reserves_within_limit 0 growcap_double (2 ^ 45)%N Hg
                  _ _ (-1) Hv) as (_ & Hneg & _).
      exact (Hneg Hm).
    + destruct (Grow_reserves_within_limit 0 growcap_double (2 ^ 45)%N Hg
                  _ _ (2 ^ 62) Hv) as (_ & _ & Hbig).
      exact (Hbig Hb).
Defined.

Lemma Contains_iff_Index_witness :
  valid [[10; 20; 30]] (Slice 0 0 3 3)
  /\ exists (b : bool) (n : Z),
       Contains Z.eqb (Slice 0 0 3 3) 20 [[10; 20; 30]] = Ok b [[10; 20; 30]]
       /\ Index Z.eqb (Slice 0 0 3 3) 20 [[10; 20; 30]] = Ok n [[10; 20; 30]]
       /\ (b = true <-> 0 <= n).
Proof.
  assert (Hv : valid [[10; 20; 30]] (Slice 0 0 3 3)) by (split; simpl; lia).
  split; [exact Hv|].
  exact (Contains_iff_Index Z.eqb _ _ 20 Hv).
Defined.

Lemma Compact_keeps_first_witness :
  valid [[5; 5; 6]] (Slice 0 0 3 3)
  /\ 0 < len (Slice 0 0 3 3)
  /\ exists r h' r' h'',
       Compact Z.eqb (Slice 0 0 3 3) [[5; 5; 6]] = Ok r h'
       /\ CompactFunc (Slice 0 0 3 3) (fun _ _ => true) [[5; 5; 6]] = Ok r' h''
       /\ len r <= 3 /\ len r' <= 3
       /\ 0 < len r /\ 0 < len r'
       /\ exists x, contents h' r !! 0%nat = Some x
                    /\ contents h'' r' !! 0%nat = Some x.
Proof.
  assert (Hv : valid [[5; 5; 6]] (Slice 0 0 3 3)) by (split; simpl; lia).
  assert (Hp : 0 < len (Slice 0 0 3 3)) by (unfold len; simpl; lia).
  split; [exact Hv|]. split; [exact Hp|].
  destruct (Compact_keeps_first Z.eqb (fun _ _ => true) _ _ Hv)
    as (r & h' & r' & h'' & E & E' & Hl & Hl' & Hfst).
  destruct (Hfst Hp) as (Hr & Hr' & x & _ & Hx & Hx').
  exists r, h', r', h''.
  split; [exact E|]. split; [exact E'|]. split; [exact Hl|].
  split; [exact Hl'|]. split; [exact Hr|]. split; [exact Hr'|].
  exists x. split; [exact Hx|exact Hx'].
Defined.

Lemma Equal_true_iff_witness :
  valid [[1; 2; 3]; [1; 2; 3]] (Slice 0 0 3 3)
  /\ valid [[1; 2; 3]; [1; 2; 3]] (Slice 1 0 3 3)
  /\ exists b : bool,
       Equal Z.eqb (Slice 0 0 3 3) (Slice 1 0 3 3) [[1; 2; 3]; [1; 2; 3]]
       = Ok b [[1; 2; 3]; [1; 2; 3]]
       /\ b = true.
Proof.
  assert (H1 : valid [[1; 2; 3]; [1; 2; 3]] (Slice 0 0 3 3))
    by (split; simpl; lia).
  assert (H2 : valid [[1; 2; 3]; [1; 2; 3]] (Slice 1 0 3 3))
    by (split; simpl; lia).
  split; [exact H1|]. split; [exact H2|].
  destruct (Equal_true_iff Z.eqb _ _ _ H1 H2) as (b & E & _).
  exists b. split; [exact E|].
  assert (Ok (T:=Z) b [[1; 2; 3]; [1; 2; 3]] = Ok true [[1; 2; 3]; [1; 2; 3]])
    as [= ->]; [by rewrite <- E|reflexivity].
Defined.

Lemma Equal_self_iff_witness :
  valid [[1; 2]] (Slice 0 0 2 2)
  /\ exists b : bool,
       Equal (fun x y => Z.eqb x y && negb (Z.eqb x 2))
         (Slice 0 0 2 2) (Slice 0 0 2 2) [[1; 2]] = Ok b [[1; 2]]
       /\ b = false.
Proof.
  assert (Hv : valid [[1; 2]] (Slice 0 0 2 2)) by (split; simpl; lia).
  split; [exact Hv|].
  destruct (Equal_self_iff (fun x y => Z.eqb x y && negb (Z.eqb x 2)) _ _ Hv)
    as (b & E & _).
  exists b. split; [exact E|].
  assert (Ok (T:=Z) b [[1; 2]] = Ok false [[1; 2]]) as [= ->];
    [by rewrite <- E|reflexivity].
Defined.

Lemma EqualFunc_true_iff_witness :
  valid [[1; 0]] (Slice 0 0 2 2) /\ valid [[true; false]] (Slice 0 0 2 2)
  /\ exists b : bool,
       EqualFunc (Slice 0 0 2 2) (Slice 0 0 2 2)
         (fun (x : Z) (y : bool) => Bool.eqb (Z.eqb x 1) y)
         [[true; false]] [[1; 0]]
       = Ok b [[1; 0]]
       /\ b = true.
Proof.
  assert (H1 : valid [[1; 0]] (Slice 0 0 2 2)) by (split; simpl; lia).
  assert (H2 : valid [[true; false]] (Slice 0 0 2 2)) by (split; simpl; lia).
  split; [exact H1|]. split; [exact H2|].
  destruct (EqualFunc_true_iff
              (fun (x : Z) (y : bool) => Bool.eqb (Z.eqb x 1) y) _ _ _ _ H1 H2)
    as (b & E & _).
  exists b. split; [exact E|].
  assert (Ok (T:=Z) b [[1; 0]] = Ok true [[1; 0]]) as [= ->];
    [by rewrite <- E|reflexivity].
Defined.

Lemma CompareFunc_first_nonzero_witness :
  valid [[1; 5]; [1; 2; 3]] (Slice 0 0 2 2)
  /\ valid [[1; 5]; [1; 2; 3]] (Slice 1 0 3 3)
  /\ exists r : Z,
       CompareFunc (Slice 0 0 2 2) (Slice 1 0 3 3) Z.sub [[1; 5]; [1; 2; 3]]
       = Ok r [[1; 5]; [1; 2; 3]]
       /\ r = 3.
Proof.
  assert (H1 : valid [[1; 5]; [1; 2; 3]] (Slice 0 0 2 2))
    by (split; simpl; lia).
  assert (H2 : valid [[1; 5]; [1; 2; 3]] (Slice 1 0 3 3))
    by (split; simpl; lia).
  split; [exact H1|]. split; [exact H2|].
  destruct (CompareFunc_first_nonzero Z.sub _ _ _ H1 H2) as (r & E & _).
  exists r. split; [exact E|].
  assert (Ok (T:=Z) r [[1; 5]; [1; 2; 3]] = Ok 3 [[1; 5]; [1; 2; 3]])
    as [= ->]; [by rewrite <- E|reflexivity].
Defined.

Lemma Compare_zero_iff_Equal_witness :
  valid [[1; 2]; [1; 2; 3]] (Slice 0 0 2 2)
  /\ valid [[1; 2]; [1; 2; 3]] (Slice 1 0 2 3)
  /\ exists (r : Z) (b : bool),
       Compare Z.eqb Z.ltb (Slice 0 0 2 2) (Slice 1 0 2 3) [[1; 2]; [1; 2; 3]]
       = Ok r [[1; 2]; [1; 2; 3]]
       /\ Equal Z.eqb (Slice 0 0 2 2) (Slice 1 0 2 3) [[1; 2]; [1; 2; 3]]
          = Ok b [[1; 2]; [1; 2; 3]]
       /\ (r = 0 <-> b = true).
Proof.
  assert (H1 : valid [[1; 2]; [1; 2; 3]] (Slice 0 0 2 2))
    by (split; simpl; lia).
  assert (H2 : valid [[1; 2]; [1; 2; 3]] (Slice 1 0 2 3))
    by (split; simpl; lia).
  split; [exact H1|]. split; [exact H2|].
  exact (Compare_zero_iff_Equal Z.eqb Z.ltb _ _ _ H1 H2).
Defined.

Lemma Compare_swap_witness :
  (forall x y, Z.eqb x y = Z.eqb y x)
  /\ (forall x y, Z.eqb x y = false -> Z.ltb y x = negb (Z.ltb x y))
  /\ valid [[1; 3]; [1; 2; 3]] (Slice 0 0 2 2)
  /\ valid [[1; 3]; [1; 2; 3]] (Slice 1 0 3 3)
  /\ exists r : Z,
       Compare Z.eqb Z.ltb (Slice 0 0 2 2) (Slice 1 0 3 3) [[1; 3]; [1; 2; 3]]
       = Ok r [[1; 3]; [1; 2; 3]]
       /\ Compare Z.eqb Z.ltb (Slice 1 0 3 3) (Slice 0 0 2 2)
            [[1; 3]; [1; 2; 3]]
          = Ok (- r) [[1; 3]; [1; 2; 3]].
Proof.
  assert (Hsym : forall x y, Z.eqb x y = Z.eqb y x)
    by (intros x y; apply Z.eqb_sym).
  assert (Htot : forall x y, Z.eqb x y = false -> Z.ltb y x = negb (Z.ltb x y)).
  { intros x y E. apply Z.eqb_neq in E.
    destruct (Z.ltb_spec x y), (Z.ltb_spec y x); simpl; (reflexivity || lia). }
  assert (H1 : valid [[1; 3]; [1; 2; 3]] (Slice 0 0 2 2))
    by (split; simpl; lia).
  assert (H2 : valid [[1; 3]; [1; 2; 3]] (Slice 1 0 3 3))
    by (split; simpl; lia).
  split; [exact Hsym|]. split; [exact Htot|].
  split; [exact H1|]. split; [exact H2|].
  exact (Compare_swap Z.eqb Z.ltb Hsym Htot _ _ _ H1 H2).
Defined.

Lemma IndexFunc_first_witness :
  valid [[10; 25; 30; 45]] (Slice 0 0 4 4)
  /\ exists n : Z,
       IndexFunc (Slice 0 0 4 4) Z.odd [[10; 25; 30; 45]]
       = Ok n [[10; 25; 30; 45]]
       /\ n = 1.
Proof.
  assert (Hv : valid [[10; 25; 30; 45]] (Slice 0 0 4 4))
    by (split; simpl; lia).
  split; [exact Hv|].
  destruct (IndexFunc_first Z.odd _ _ Hv) as (n & E & _).
  exists n. split; [exact E|].
  assert (Ok (T:=Z) n [[10; 25; 30; 45]] = Ok 1 [[10; 25; 30; 45]])
    as [= ->]; [by rewrite <- E|reflexivity].
Defined.

Lemma Index_first_witness :
  valid [[10; 20; 30; 20]] (Slice 0 0 4 4)
  /\ exists n : Z,
       Index Z.eqb (Slice 0 0 4 4) 20 [[10; 20; 30; 20]]
       = Ok n [[10; 20; 30; 20]]
       /\ n = 1.
Proof.
  assert (Hv : valid [[10; 20; 30; 20]] (Slice 0 0 4 4))
    by (split; simpl; lia).
  split; [exact Hv|].
  destruct (Index_first Z.eqb _ _ 20 Hv) as (n & E & _).
  exists n. split; [exact E|].
  assert (Ok (T:=Z) n [[10; 20; 30; 20]] = Ok 1 [[10; 20; 30; 20]])
    as [= ->]; [by rewrite <- E|reflexivity].
Defined.

Lemma Clip_cuts_capacity_witness :
  valid [[1; 2; 7]] (Slice 0 0 2 3)
  /\ exists r,
       Clip (Slice 0 0 2 3) [[1; 2; 7]] = Ok r [[1; 2; 7]]
       /\ cap r = 2 /\ contents [[1; 2; 7]] r = [1; 2].
Proof.
  assert (Hv : valid [[1; 2; 7]] (Slice 0 0 2 3)) by (split; simpl; lia).
  split; [exact Hv|].
  destruct (Clip_cuts_capacity 0 growcap_double _ _ Hv)
    as (r & E & _ & _ & _ & Hcap & Hc & _).
  exists r. split; [exact E|]. split; [exact Hcap|exact Hc].
Defined.

Lemma Clone_fresh_copy_witness :
  valid [[1; 2; 7]] (Slice 0 0 2 3)
  /\ exists r h',
       Clone 0 (Slice 0 0 2 3) [[1; 2; 7]] = Ok r h'
       /\ contents h' r = [1; 2]
       /\ mem h' (base r) = [1; 2; 0].
Proof.
  assert (Hv : valid [[1; 2; 7]] (Slice 0 0 2 3)) by (split; simpl; lia).
  split; [exact Hv|].
  destruct (Clone_fresh_copy 0 _ _ Hv)
    as (r & h' & E & _ & _ & _ & _ & Hc & Hm & _).
  exists r, h'. split; [exact E|]. split; [exact Hc|exact Hm].
Defined.

Lemma Equal_Clone_witness :
  valid [[1; 2; 7]] (Slice 0 0 2 3)
  /\ exists (b : bool) h',
       (c <- Clone 0 (Slice 0 0 2 3) ;; Equal Z.eqb c (Slice 0 0 2 3))
         [[1; 2; 7]] = Ok b h'
       /\ b = true.
Proof.
  assert (Hv : valid [[1; 2; 7]] (Slice 0 0 2 3)) by (split; simpl; lia).
  split; [exact Hv|].
  destruct (Equal_Clone 0 Z.eqb _ _ Hv) as (b & h' & E & _).
  exists b, h'. split; [exact E|].
  assert (Ok b h' = Ok true [[1; 2; 7]; [1; 2; 0]]) as [= -> _];
    [by rewrite <- E|reflexivity].
Defined.





Lemma Delete_panics_iff_witness :
  (slen (Slice 0 0 3 3) <= scap (Slice 0 0 3 3))%nat
  /\ ~ (0 <= 1 <= len (Slice 0 0 3 3) /\ 0 <= 4 <= len (Slice 0 0 3 3))
  /\ exists p, Delete (Slice 0 0 3 3) 1 4 [[1; 2; 3]] = Panic p.
Proof.
  assert (Hn : (slen (Slice 0 0 3 3) <= scap (Slice 0 0 3 3))%nat)
    by (simpl; lia).
  assert (Hb : ~ (0 <= 1 <= len (Slice 0 0 3 3)
                  /\ 0 <= 4 <= len (Slice 0 0 3 3)))
    by (unfold len; simpl; lia).
  split; [exact Hn|]. split; [exact Hb|].
  exact (proj2 (Delete_panics_iff [[1; 2; 3]] _ 1 4 Hn) Hb).
Defined.

Lemma Delete_suffix_witness :
  valid [[1; 2; 3]] (Slice 0 0 3 3) /\ 0 <= 1 <= len (Slice 0 0 3 3)
  /\ Delete (Slice 0 0 3 3) 1 3 [[1; 2; 3]] = Ok (Slice 0 0 1 3) [[1; 2; 3]].
Proof.
  assert (Hv : valid [[1; 2; 3]] (Slice 0 0 3 3)) by (split; simpl; lia).
  assert (Hi : 0 <= 1 <= len (Slice 0 0 3 3)) by (unfold len; simpl; lia).
  split; [exact Hv|]. split; [exact Hi|].
  exact (Delete_suffix _ _ _ Hv Hi).
Defined.

Lemma Compact_nothing_to_do_witness :
  valid [[1; 2; 1]] (Slice 0 0 3 3)
  /\ (forall (i : nat) a b,
        contents [[1; 2; 1]] (Slice 0 0 3 3) !! i = Some a ->
        contents [[1; 2; 1]] (Slice 0 0 3 3) !! S i = Some b ->
        Z.eqb b a = false)
  /\ exists h',
       Compact Z.eqb (Slice 0 0 3 3) [[1; 2; 1]] = Ok (Slice 0 0 3 3) h'
       /\ contents h' (Slice 0 0 3 3) = [1; 2; 1].
Proof.
  assert (Hv : valid [[1; 2; 1]] (Slice 0 0 3 3)) by (split; simpl; lia).
  assert (Hadj : forall (i : nat) a b,
            contents [[1; 2; 1]] (Slice 0 0 3 3) !! i = Some a ->
            contents [[1; 2; 1]] (Slice 0 0 3 3) !! S i = Some b ->
            Z.eqb b a = false).
  { intros [|[|[|i]]] a b Ha Hb; simpl in Ha, Hb;
      try discriminate; injection Ha as <-; injection Hb as <-; reflexivity. }
  split; [exact Hv|]. split; [exact Hadj|].
  destruct (Compact_nothing_to_do Z.eqb _ _ Hv Hadj) as (h' & E & Hc).
  exists h'. split; [exact E|exact Hc].
Defined.

Lemma Compact_idempotent_witness :
  valid [[1; 1; 2; 2; 1]] (Slice 0 0 5 5)
  /\ exists r h' h'',
       Compact Z.eqb (Slice 0 0 5 5) [[1; 1; 2; 2; 1]] = Ok r h'
       /\ Compact Z.eqb r h' = Ok r h''
       /\ contents h'' r = contents h' r.
Proof.
  assert (Hv : valid [[1; 1; 2; 2; 1]] (Slice 0 0 5 5)) by (split; simpl; lia).
  split; [exact Hv|].
  exact (Compact_idempotent Z.eqb _ _ Hv).
Defined.

Lemma Grow_zero_witness :
  valid [[1; 2; 7]] (Slice 0 0 2 3)
  /\ exists h',
       Grow 0 growcap_double (2 ^ 45)%N (Slice 0 0 2 3) 0 [[1; 2; 7]]
       = Ok (Slice 0 0 2 3) h'
       /\ contents h' (Slice 0 0 2 3) = [1; 2].
Proof.
  assert (Hv : valid [[1; 2; 7]] (Slice 0 0 2 3)) by (split; simpl; lia).
  split; [exact Hv|].
  destruct (Grow_zero 0 growcap_double (2 ^ 45)%N _ _ Hv)
    as (h' & E & Hc & _).
  exists h'. split; [exact E|exact Hc].
Defined.

Lemma Grow_moves_witness :
  (forall old need, (need <= growcap_double old need)%nat)
  /\ valid [[1; 2; 7; 7; 7]] (Slice 0 0 2 5) /\ 0 < 1
  /\ Z.of_nat (growcap_double 5 (5 + Z.to_nat 1)) <= Z.of_N (2 ^ 45)
  /\ exists r h',
       Grow 0 growcap_double (2 ^ 45)%N (Slice 0 0 2 5) 1 [[1; 2; 7; 7; 7]]
       = Ok r h'
       /\ (1 <= base r)%nat /\ cap (Slice 0 0 2 5) + 1 <= cap r
       /\ contents h' r = [1; 2].
Proof.
  assert (Hg : forall old need, (need <= growcap_double old need)%nat)
    by (intros old need; unfold growcap_double; lia).
  assert (Hv : valid [[1; 2; 7; 7; 7]] (Slice 0 0 2 5)) by (split; simpl; lia).
  assert (Hn : 0 < 1) by lia.
  assert (Hf : Z.of_nat (growcap_double 5 (5 + Z.to_nat 1)) <= Z.of_N (2 ^ 45))
    by (vm_compute; discriminate).
  split; [exact Hg|]. split; [exact Hv|]. split; [exact Hn|].
  split; [exact Hf|].
  destruct (Grow_moves 0 growcap_double (2 ^ 45)%N Hg _ _ 1 Hv Hn Hf)
    as (r & h' & E & Hb & _ & _ & Hcap & Hc & _).
  exists r, h'. split; [exact E|]. split; [exact Hb|].
  split; [exact Hcap|exact Hc].
Defined.

Lemma Contains_true_iff_witness :
  valid [[10; 20; 30]] (Slice 0 0 3 3)
  /\ exists b : bool,
       Contains Z.eqb (Slice 0 0 3 3) 99 [[10; 20; 30]] = Ok b [[10; 20; 30]]
       /\ b = false.
Proof.
  assert (Hv : valid [[10; 20; 30]] (Slice 0 0 3 3)) by (split; simpl; lia).
  split; [exact Hv|].
  destruct (Contains_true_iff Z.eqb _ _ 99 Hv) as (b & E & _).
  exists b. split; [exact E|].
  assert (Ok (T:=Z) b [[10; 20; 30]] = Ok false [[10; 20; 30]]) as [= ->];
    [by rewrite <- E|reflexivity].
Defined.

Lemma Equal_swap_witness :
  (forall x y, Z.eqb x y = Z.eqb y x)
  /\ valid [[1; 2]; [1; 2; 3]] (Slice 0 0 2 2)
  /\ valid [[1; 2]; [1; 2; 3]] (Slice 1 0 3 3)
  /\ exists b : bool,
       Equal Z.eqb (Slice 0 0 2 2) (Slice 1 0 3 3) [[1; 2]; [1; 2; 3]]
       = Ok b [[1; 2]; [1; 2; 3]]
       /\ Equal Z.eqb (Slice 1 0 3 3) (Slice 0 0 2 2) [[1; 2]; [1; 2; 3]]
          = Ok b [[1; 2]; [1; 2; 3]].
Proof.
  assert (Hsym : forall x y, Z.eqb x y = Z.eqb y x)
    by (intros x y; apply Z.eqb_sym).
  assert (H1 : valid [[1; 2]; [1; 2; 3]] (Slice 0 0 2 2))
    by (split; simpl; lia).
  assert (H2 : valid [[1; 2]; [1; 2; 3]] (Slice 1 0 3 3))
    by (split; simpl; lia).
  split; [exact Hsym|]. split; [exact H1|]. split; [exact H2|].
  exact (Equal_swap Z.eqb _ _ _ Hsym H1 H2).
Defined.

Lemma Delete_on_Clone_witness :
  valid [[1; 2; 3; 4; 5]] (Slice 0 0 5 5)
  /\ 0 <= 1 <= 3 /\ 3 <= len (Slice 0 0 5 5)
  /\ exists r h',
       (c <- Clone 0 (Slice 0 0 5 5) ;; Delete c 1 3) [[1; 2; 3; 4; 5]]
       = Ok r h'
       /\ contents h' r = [1; 4; 5]
       /\ contents h' (Slice 0 0 5 5) = [1; 2; 3; 4; 5].
Proof.
  assert (Hv : valid [[1; 2; 3; 4; 5]] (Slice 0 0 5 5)) by (split; simpl; lia).
  assert (Hij : 0 <= 1 <= 3) by lia.
  assert (Hj : 3 <= len (Slice 0 0 5 5)) by (unfold len; simpl; lia).
  split; [exact Hv|]. split; [exact Hij|]. split; [exact Hj|].
  destruct (Delete_on_Clone 0 _ _ _ _ Hv Hij Hj) as (r & h' & E & Hc & Hs & _).
  exists r, h'. split; [exact E|]. split; [exact Hc|exact Hs].
Defined.

Lemma Compact_on_Clone_witness :
  valid [[1; 1; 2]] (Slice 0 0 3 3)
  /\ exists r h',
       (c <- Clone 0 (Slice 0 0 3 3) ;; Compact Z.eqb c) [[1; 1; 2]] = Ok r h'
       /\ contents h' (Slice 0 0 3 3) = [1; 1; 2].
Proof.
  assert (Hv : valid [[1; 1; 2]] (Slice 0 0 3 3)) by (split; simpl; lia).
  split; [exact Hv|].
  destruct (Compact_on_Clone 0 Z.eqb _ _ Hv) as (r & h' & E & _ & Hs & _).
  exists r, h'. split; [exact E|exact Hs].
Defined.
